(** * Shallow embedding of the studiolibrary metadata model and the
      combined tree widget's sort / group / custom-order code.

    Sources embedded:
    - [src/cmds.py]: [renamePath], [updateJson], [saveJson], [readJson],
      [generateUniquePath], [splitPath], [copyPath], [movePath],
      [removePath], [registerItem], [itemFromPath], [timeAgo];
    - [src/librarymodel.py]: [LibraryModel] ([_fileChanged], [mtime],
      [setDirty], [isDirty], [read], [save], [sync], [copyItems],
      [saveItemData], [addPaths], [updatePaths], [copyPath], [removePath],
      [removePaths]);
    - [src/packages/studioqt/widgets/combinedwidget/combinedtreewidget.py]:
      [sortByColumn], [groupByColumn], [itemsCustomOrder],
      [setItemsCustomOrder], [updateCustomOrder], [moveItems],
      [labelFromColumn], [columnFromLabel]. *)

From Stdlib Require Import Ascii String ZArith Lia.
From Stdlib Require Import Sorting.Sorted Sorting.Permutation.
From stdpp Require Import base gmap strings list.

Open Scope string_scope.

(* ------------------------------------------------------------------ *)
(** ** JSON values and the path database *)
(* ------------------------------------------------------------------ *)

Module Json.

(** The scalar values stored in a record (column label -> value). *)
Inductive jval :=
| JInt (z : Z)
| JStr (s : string)
| JNull.

End Json.
Import Json.

(** A record: column label -> value (a JSON object, i.e. a Python dict). *)
Abbreviation record := (gmap string jval).
(** The database: normalized path -> record. *)
Abbreviation db := (gmap string record).

(* ------------------------------------------------------------------ *)
(** ** String helpers: Python's [str.replace], [str.lower], [in], posixpath *)
(* ------------------------------------------------------------------ *)

Module Str.

Definition slash : ascii := "/"%char.
Definition backslash : ascii := "\"%char.
Definition dot : ascii := "."%char.

(** [s.replace(a, b)] for single characters [a] and [b]. *)
Fixpoint replace_char (a b : ascii) (s : string) : string :=
  match s with
  | EmptyString => EmptyString
  | String c s' => String (if Ascii.eqb c a then b else c) (replace_char a b s')
  end.

(** [str.lower()] on the ASCII range. *)
Definition lower_char (c : ascii) : ascii :=
  let n := nat_of_ascii c in
  if (65 <=? n)%nat && (n <=? 90)%nat then ascii_of_nat (n + 32) else c.

Fixpoint lower (s : string) : string :=
  match s with
  | EmptyString => EmptyString
  | String c s' => String (lower_char c) (lower s')
  end.

(** Index of the last occurrence of [c] in [s] ([str.rfind]), [None] for -1. *)
Fixpoint rfind_go (c : ascii) (s : string) (i : nat) (acc : option nat) : option nat :=
  match s with
  | EmptyString => acc
  | String d s' => rfind_go c s' (S i) (if Ascii.eqb d c then Some i else acc)
  end.
Definition rfind (c : ascii) (s : string) : option nat := rfind_go c s 0 None.

(** [s[:i]] and [s[i:]] for [0 <= i]. *)
Definition take (i : nat) (s : string) : string := substring 0 i s.
Definition drop (i : nat) (s : string) : string := substring i (String.length s - i) s.

(** [s.rstrip('/')]. *)
Fixpoint skip_char (c : ascii) (l : list ascii) : list ascii :=
  match l with
  | [] => []
  | d :: l' => if Ascii.eqb d c then skip_char c l' else l
  end.

Definition rstrip_slash (s : string) : string :=
  string_of_list_ascii (rev (skip_char slash (rev (list_ascii_of_string s)))).

Definition all_char (c : ascii) (s : string) : bool :=
  forallb (fun d => Ascii.eqb d c) (list_ascii_of_string s).

Definition all_slashes (s : string) : bool := all_char slash s.

(** [posixpath.dirname]. *)
Definition dirname (p : string) : string :=
  let i := match rfind slash p with Some j => S j | None => 0 end in
  let head := take i p in
  if negb (String.eqb head "") && negb (all_slashes head) then rstrip_slash head
  else head.

(** [posixpath.basename]. *)
Definition basename (p : string) : string :=
  let i := match rfind slash p with Some j => S j | None => 0 end in
  drop i p.

(** [posixpath.splitext]: the dot must come after the last separator and
    the basename must not consist of leading dots up to it. *)
Definition splitext (p : string) : string * string :=
  match rfind dot p with
  | None => (p, "")
  | Some dotIndex =>
      let sepIndex := match rfind slash p with Some j => Z.of_nat j | None => (-1)%Z end in
      if (sepIndex <? Z.of_nat dotIndex)%Z then
        let start := Z.to_nat (sepIndex + 1) in
        let middle := substring start (dotIndex - start) p in
        if all_char dot middle then (p, "")
        else (take dotIndex p, drop dotIndex p)
      else (p, "")
  end.

(** [sub in s] for a non-empty [sub]. *)
Definition contains (sub s : string) : bool :=
  match String.index 0 sub s with Some _ => true | None => false end.

(** [str(n)] for a natural number. *)
Fixpoint dec_go (fuel n : nat) (acc : string) : string :=
  match fuel with
  | O => acc
  | S f =>
      let acc' := String (ascii_of_nat (48 + n mod 10)) acc in
      if (n <? 10)%nat then acc' else dec_go f (n / 10) acc'
  end.
Definition dec (n : nat) : string := dec_go (S n) n "".

(** [s.zfill(w)] for a string of digits. *)
Definition zfill (s : string) (w : nat) : string :=
  append (string_of_list_ascii (repeat "0"%char (w - String.length s))) s.

End Str.


(* ------------------------------------------------------------------ *)
(** ** Paths (studiolibrary.normPath / normPaths) *)
(* ------------------------------------------------------------------ *)

(** Modelled from the spec: [studiolibrary.normPath] / [normPaths], which are
    called by [LibraryModel.updatePaths] and [removePaths] but are not part
    of [src/]. The spec (section 3, PathRecord) states that keys are
    normalized by converting backslashes to forward slashes. *)
Definition normPath (p : string) : string := Str.replace_char Str.backslash Str.slash p.

Definition normPaths (ps : list string) : list string := map normPath ps.

(* ------------------------------------------------------------------ *)
(** ** The database file and [LibraryModel]'s cached snapshot *)
(* ------------------------------------------------------------------ *)

Module Store.

(** The database file on disk: its parsed content ([None] when the file is
    empty or is not valid JSON, which [readJson] turns into [{}]) and its
    modification time. *)
Record file := mkFile {
  f_content : option db;
  f_mtime : Z;
}.

(** The model's state: the database file ([None] when absent), the recorded
    timestamp [_mtime], the cached snapshot [_data], and the number of
    writes performed so far (used to draw the mtime of the next write). *)
Record state := mkState {
  m_file : option file;
  m_rec : option Z;
  m_data : db;
  m_writes : nat;
}.

Section Model.

(** The modification time the filesystem gives to the [n]-th write of the
    database file. Nothing is assumed about it: two writes may get the same
    time (coarse timestamp granularity). *)
Variable stamp : nat -> Z.

(** [LibraryModel.mtime]: [os.path.getmtime] if the file exists, else None. *)
Definition mtime (st : state) : option Z := f_mtime <$> m_file st.

(** [LibraryModel.isDirty]: [self._mtime != self.mtime()]. *)
Definition isDirty (st : state) : bool := bool_decide (m_rec st <> mtime st).

(** [LibraryModel.setDirty]. *)
Definition setDirty (value : bool) (st : state) : state :=
  if value then mkState (m_file st) None (m_data st) (m_writes st)
  else mkState (m_file st) (mtime st) (m_data st) (m_writes st).

(** [cmds.readJson] on the database path: [{}] when the file is absent,
    empty or malformed. *)
Definition readJson (st : state) : db :=
  match m_file st with
  | Some (mkFile (Some d) _) => d
  | _ => ∅
  end.

(** [cmds.saveJson] on the database path: rewrites the whole file. *)
Definition saveJson (d : db) (st : state) : state :=
  mkState (Some (mkFile (Some d) (stamp (m_writes st)))) (m_rec st) (m_data st)
          (S (m_writes st)).

(** [LibraryModel.read]: reload when dirty, then [setDirty(False)]. The
    returned dict IS [self._data]: callers that mutate it in place mutate
    the cache, which the embedding reflects by writing the mutated value
    back into [m_data]. *)
Definition read (st : state) : state * db :=
  if isDirty st then
    let st1 := mkState (m_file st) (m_rec st) (readJson st) (m_writes st) in
    (setDirty false st1, readJson st)
  else (st, m_data st).

(** [LibraryModel.save]. *)
Definition save (d : db) (st : state) : state := saveJson d st.

(** Write back an in-place mutation of the dict returned by [read]. *)
Definition set_data (d : db) (st : state) : state :=
  mkState (m_file st) (m_rec st) d (m_writes st).

(** [cmds.updateJson]: [data_ = readJson(path); data_.update(data);
    saveJson(path, data_)]. [dict.update] is a top-level update: the
    incoming value of each key replaces the old one ([∪] is left-biased). *)
Definition updateJson (data : db) (st : state) : state :=
  saveJson (data ∪ readJson st) st.

(** The body of [LibraryModel.updatePaths] on one path:
    [data_[path].update(data)] when present, else [data_[path] = data]. *)
Definition update_one (data : record) (d : db) (path : string) : db :=
  match d !! path with
  | Some r => <[path := data ∪ r]> d
  | None => <[path := data]> d
  end.

(** [LibraryModel.updatePaths]. *)
Definition updatePaths (paths : list string) (data : record) (st : state) : state :=
  let '(st1, d) := read st in
  let d' := foldl (update_one data) d (normPaths paths) in
  save d' (set_data d' st1).

(** [LibraryModel.addPaths]: [data = data or {}]. *)
Definition addPaths (paths : list string) (data : option record) (st : state) : state :=
  updatePaths paths (default ∅ data) st.

(** The first loop of [LibraryModel.sync]: delete every key whose path
    does not exist; the flag records whether a key was deleted. *)
Definition sync_delete (exists_ : string -> bool) (d : db) : db * bool :=
  (filter (fun kv => exists_ kv.1 = true) d,
   existsb (fun k => negb (exists_ k)) (map fst (map_to_list d))).

(** The second loop of [LibraryModel.sync]: insert [{}] for every
    discovered path without a record. *)
Fixpoint sync_insert (found : list string) (d : db) (dirty : bool) : db * bool :=
  match found with
  | [] => (d, dirty)
  | p :: found' =>
      match d !! p with
      | Some _ => sync_insert found' d dirty
      | None => sync_insert found' (<[p := ∅]> d) true
      end
  end.

(** [LibraryModel.sync]: [exists_] is [os.path.exists], [found] the paths of
    [studiolibrary.findItems(self.path())]. Returns the new state and
    whether [dataChanged] was emitted. *)
Definition sync (exists_ : string -> bool) (found : list string) (st : state)
  : state * bool :=
  let '(st1, d) := read st in
  let '(d1, dirty1) := sync_delete exists_ d in
  let '(d2, dirty2) := sync_insert found d1 dirty1 in
  let st2 := set_data d2 st1 in
  if dirty2 then (save d2 st2, true) else (st2, false).

End Model.

End Store.

(* ------------------------------------------------------------------ *)
(** ** Filesystem effects and items *)
(* ------------------------------------------------------------------ *)

(** The filesystem mutations performed by the embedded functions, in order. *)
Inductive fs_action :=
| CopyFile (src dst : string)   (* shutil.copy *)
| CopyTree (src dst : string)   (* shutil.copytree *)
| MkDir (path : string)         (* os.mkdir *)
| RenameTo (src dst : string).  (* os.rename *)

(** A library item: its path and its text per column label ([item.text]). *)
Record item := mkItem {
  i_path : string;
  i_text : string -> string;
}.

Module Lib.
Import Store.

Section Model.
Variable stamp : nat -> Z.

(** [cmds.copyPath]: [shutil.copy] for a file, [shutil.copytree] otherwise;
    returns [dst] unchanged. [isfile] is [os.path.isfile]. *)
Definition copyPath (isfile : string -> bool) (src dst : string) : fs_action * string :=
  (if isfile src then CopyFile src dst else CopyTree src dst, dst).

(** [LibraryModel.copyPath]: copy, then [self.addPaths([path])]. *)
Definition model_copyPath (isfile : string -> bool) (src dst : string) (st : state)
  : state * fs_action * string :=
  let '(a, path) := copyPath isfile src dst in
  (addPaths stamp [path] None st, a, path).

(** [LibraryModel.copyItems]: returns the state, the filesystem actions, the
    items with their new paths ([item.setPath(path)]) and whether
    [dataChanged] was emitted (always, once, after the batch). *)
Fixpoint copy_loop (isfile : string -> bool) (items : list item) (dst : string) (st : state)
  : state * list fs_action * list item :=
  match items with
  | [] => (st, [], [])
  | it :: items' =>
      let '(st1, a, path) := model_copyPath isfile (i_path it) dst st in
      let '(st2, acts, its) := copy_loop isfile items' dst st1 in
      (st2, a :: acts, mkItem path (i_text it) :: its)
  end.

Definition copyItems (isfile : string -> bool) (items : list item) (dst : string) (st : state)
  : state * list fs_action * list item * bool :=
  let '(st1, acts, its) := copy_loop isfile items dst st in (st1, acts, its, true).

(** The inner loop of [LibraryModel.saveItemData] for one item:
    [data.setdefault(path, {})] then [data[path].setdefault(column, value)]. *)
Definition setdefault_column (it : item) (path : string) (d : db) (column : string) : db :=
  let r := default ∅ (d !! path) in
  match r !! column with
  | Some _ => d
  | None => <[path := <[column := JStr (i_text it column)]> r]> d
  end.

Definition save_item (columns : list string) (data : db) (it : item) : db :=
  let path := i_path it in
  let data1 := match data !! path with Some _ => data | None => <[path := ∅]> data end in
  foldl (setdefault_column it path) data1 columns.

(** [columns = columns or ["Custom Order"]]. *)
Definition default_columns (columns : option (list string)) : list string :=
  match columns with
  | None | Some [] => ["Custom Order"]
  | Some cs => cs
  end.

(** [LibraryModel.saveItemData]: build [data] from a fresh [{}], then
    [studiolibrary.updateJson(self.databasePath(), data)]. *)
Definition saveItemData (items : list item) (columns : option (list string)) (st : state)
  : state :=
  let data := foldl (save_item (default_columns columns)) ∅ items in
  updateJson stamp data st.

End Model.
End Lib.

(* ------------------------------------------------------------------ *)
(** ** [cmds.renamePath] and [cmds.generateUniquePath] *)
(* ------------------------------------------------------------------ *)

Module Cmds.

(** The four [PathRenameError] messages of [renamePath]. *)
Inductive rename_error :=
| SamePath (src : string)        (* 'The source path and destination path are the same' *)
| ExistingPath (dst : string)    (* 'Cannot save over an existing path' *)
| MissingDir (dirname : string)  (* 'The system cannot find the specified path: "dirname".' *)
| MissingSrc (src : string).     (* 'The system cannot find the specified path: "src"' *)

(** [os.mkdir] seen through [os.path.exists]. *)
Definition after_mkdir (exists_ : string -> bool) (d : string) : string -> bool :=
  fun p => String.eqb p d || exists_ p.

(** [cmds.renamePath(src, dst, extension, force)] against a filesystem whose
    [os.path.exists] is [exists_]. Returns the filesystem mutations performed,
    in order, and the result (the destination or the error raised). *)
Definition renamePath (exists_ : string -> bool) (src0 dst0 : string)
    (extension : option string) (force : bool)
  : list fs_action * (rename_error + string) :=
  let src := normPath src0 in
  let dst1 := normPath dst0 in
  let dirname := Str.dirname src in
  let dst2 := if Str.contains "/" dst1 then dst1 else dirname ++ "/" ++ dst1 in
  let dst := match extension with
             | Some ext => if negb (String.eqb ext "") && negb (Str.contains ext dst2)
                           then dst2 ++ ext else dst2
             | None => dst2
             end in
  if String.eqb src dst && negb force then ([], inl (SamePath src))
  else if exists_ dst && negb force then ([], inl (ExistingPath dst))
  else if negb (exists_ dirname) then ([], inl (MissingDir dirname))
  else
    let mk := negb (exists_ (Str.dirname dst)) && force in
    let acts := if mk then [MkDir (Str.dirname dst)] else [] in
    let exists1 := if mk then after_mkdir exists_ (Str.dirname dst) else exists_ in
    if negb (exists1 src) then (acts, inl (MissingSrc src))
    else ((acts ++ [RenameTo src dst])%list, inr dst).

(** [cmds.splitPath]. *)
Definition splitPath (path : string) : string * string * string :=
  let p := normPath path in
  let '(filename, extension) := Str.splitext p in
  (Str.dirname filename, Str.basename filename, extension).

(** The candidate [u'{dirname}/{name} ({number}){extension}']. *)
Definition candidate (dirname name extension : string) (number : nat) : string :=
  dirname ++ "/" ++ name ++ " (" ++ Str.dec number ++ ")" ++ extension.

(** Outcome of [generateUniquePath]: the path returned or the
    [ValueError('Cannot generate unique name for path ...')]. *)
Inductive unique_result :=
| Unique (path : string)
| CannotGenerate (path : string).

(** The [while os.path.exists(path)] loop of [generateUniquePath], one fuel
    unit per evaluation of the loop condition; [None] means the fuel ran out
    before the loop finished. *)
Fixpoint unique_loop (fuel : nat) (exists_ : string -> bool)
    (dirname name extension : string) (attempts : Z) (attempt : nat) (path : string)
  : option unique_result :=
  match fuel with
  | O => None
  | S fuel' =>
      if exists_ path then
        let attempt' := S attempt in
        let path' := candidate dirname name extension attempt' in
        if (attempts <=? Z.of_nat attempt')%Z then Some (CannotGenerate path')
        else unique_loop fuel' exists_ dirname name extension attempts attempt' path'
      else Some (Unique path)
  end.

(** [cmds.generateUniquePath(path, attempts)], run with [fuel] loop tests. *)
Definition generateUniquePath (fuel : nat) (exists_ : string -> bool) (path : string)
    (attempts : Z) : option unique_result :=
  let '(dirname, name, extension) := splitPath path in
  unique_loop fuel exists_ dirname name extension attempts 1 path.

End Cmds.

(* ------------------------------------------------------------------ *)
(** ** [CombinedTreeWidget]: sorting, grouping and custom order *)
(* ------------------------------------------------------------------ *)

Module Tree.

(** A tree widget item ([CombinedWidgetItem]): an identity (Python object identity, used by [==]
    and [list.index]), its text per column label ([item.text(label)]) and
    its displayed text per column index ([item.displayText(column)]). *)
Record witem := mkRow {
  r_id : nat;
  r_text : string -> string;
  r_display : Z -> string;
}.

(** A row of the widget after grouping: an item or a synthetic group item. *)
Inductive drow :=
| DItem (r : witem)
| DHeader (text : string).

Inductive order := Ascending | Descending.

(** A column argument: None, an index or a label. *)
Inductive colref :=
| ColNone
| ColIdx (c : Z)
| ColLabel (l : string).

(** The header labels and the widget's remembered group order. *)
Record view := mkView {
  v_labels : list string;
  v_groupOrder : order;
}.

Fixpoint index_of (l : string) (labels : list string) : option nat :=
  match labels with
  | [] => None
  | l' :: labels' => if String.eqb l l' then Some 0 else S <$> index_of l labels'
  end.

(** [columnFromLabel]: the label's index, or -1. *)
Definition columnFromLabel (v : view) (l : string) : Z :=
  match index_of l (v_labels v) with Some i => Z.of_nat i | None => (-1)%Z end.

(** [labelFromColumn]: the header item's text ([""] out of range). *)
Definition labelFromColumn (v : view) (c : Z) : string :=
  if (c <? 0)%Z then "" else default "" (v_labels v !! Z.to_nat c).

(** [isinstance(column, basestring)] resolution. *)
Definition resolve (v : view) (c : colref) : colref :=
  match c with ColLabel l => ColIdx (columnFromLabel v l) | _ => c end.

(** Python's [sorted(xs, key=key, reverse=reverse)]: a stable sort; with
    [reverse], elements are ordered as if each comparison were reversed,
    so equal keys still keep their input order. Insertion sort. *)
Section PySorted.
Context {A : Type}.
Variable key : A -> string.
Variable reverse : bool.

Definition before (a b : A) : bool :=
  if reverse then String.leb (key b) (key a) else String.leb (key a) (key b).

Fixpoint insert_sorted (x : A) (l : list A) : list A :=
  match l with
  | [] => [x]
  | y :: l' => if before x y then x :: y :: l' else y :: insert_sorted x l'
  end.

Fixpoint py_sorted (l : list A) : list A :=
  match l with
  | [] => []
  | x :: l' => insert_sorted x (py_sorted l')
  end.
End PySorted.

(** The loop of [groupByColumn] once grouping is on:
    [currentGroupText = ""] and a group item before every row whose
    display text differs from the previous one. *)
Fixpoint group_loop (groupColumn : Z) (current : string) (items : list witem) : list drow :=
  match items with
  | [] => []
  | it :: items' =>
      let groupText := r_display it groupColumn in
      let rest := group_loop groupColumn groupText items' in
      if String.eqb groupText current then DItem it :: rest
      else DHeader groupText :: DItem it :: rest
  end.

(** [groupByColumn(groupColumn, groupOrder, items)]: returns the rows put
    back into the widget and the new [(_groupColumn, _groupOrder)]. *)
Definition groupByColumn (v : view) (groupColumn : colref) (groupOrder : option order)
    (items : list witem) : list drow * colref * order :=
  let groupOrder := default (v_groupOrder v) groupOrder in
  let groupColumn := resolve v groupColumn in
  let groupReverse := match groupOrder with Descending => true | Ascending => false end in
  match groupColumn with
  | ColIdx c =>
      if bool_decide (c = 0%Z) then (map DItem items, groupColumn, groupOrder)
      else
        let groupLabel := labelFromColumn v c in
        let sorted := py_sorted (fun it => Str.lower (r_text it groupLabel)) groupReverse items in
        (group_loop c "" sorted, groupColumn, groupOrder)
  | _ => (map DItem items, groupColumn, groupOrder)
  end.

(** [sortByColumn]'s column resolution: a label is looked up, and
    [if not sortColumn: sortColumn = 0]; then [labelFromColumn]. *)
Definition sortColumnLabel (v : view) (sortColumn : colref) : string :=
  let sortColumn :=
    match resolve v sortColumn with ColIdx c => c | _ => 0%Z end in
  labelFromColumn v sortColumn.

(** [isCustomOrder] forces ascending order; [sortReverse]. *)
Definition sortReverse (v : view) (sortColumn : colref) (sortOrder : order) : bool :=
  let sortOrder :=
    if String.eqb (sortColumnLabel v sortColumn) "Custom Order" then Ascending else sortOrder in
  match sortOrder with Descending => true | Ascending => false end.

(** [_sortKey]: [item.text(sortColumnLabel).lower()]. *)
Definition sortKey (label : string) (it : witem) : string := Str.lower (r_text it label).

(** The sorting step of [sortByColumn]: the list handed to [groupByColumn]. *)
Definition sortStep (v : view) (sortColumn : colref) (sortOrder : order) (items : list witem)
  : list witem :=
  py_sorted (sortKey (sortColumnLabel v sortColumn)) (sortReverse v sortColumn sortOrder) items.

(** [sortByColumn(sortColumn, sortOrder, groupColumn, groupOrder)] over the
    widget's current items (group items excluded, as [self.items()] does). *)
Definition sortByColumn (v : view) (sortColumn : colref) (sortOrder : order)
    (groupColumn : colref) (groupOrder : option order) (items : list witem) : list drow :=
  let '(rows, _, _) :=
    groupByColumn v groupColumn groupOrder (sortStep v sortColumn sortOrder items) in
  rows.

(** [item.setText(label, value)]. *)
Definition setText (label value : string) (r : witem) : witem :=
  mkRow (r_id r) (fun l => if String.eqb l label then value else r_text r l) (r_display r).

(** [setItemsCustomOrder(items, row=1, padding=5)]. *)
Fixpoint setItemsCustomOrder_from (n : nat) (padding : nat) (items : list witem) : list witem :=
  match items with
  | [] => []
  | it :: items' =>
      setText "Custom Order" (Str.zfill (Str.dec n) padding) it
        :: setItemsCustomOrder_from (S n) padding items'
  end.

Definition setItemsCustomOrder (items : list witem) : list witem :=
  setItemsCustomOrder_from 1 5 items.

(** [itemsCustomOrder]: [sorted(items, key=lambda item: item.text("Custom Order"))]. *)
Definition itemsCustomOrder (items : list witem) : list witem :=
  py_sorted (fun it => r_text it "Custom Order") false items.

(** [list.index(x)] by identity; [None] is the [ValueError]. *)
Fixpoint py_index (x : witem) (l : list witem) : option nat :=
  match l with
  | [] => None
  | y :: l' => if Nat.eqb (r_id x) (r_id y) then Some 0 else S <$> py_index x l'
  end.

(** [list.insert(i, x)]: past the end it appends. *)
Fixpoint py_insert {A} (i : nat) (x : A) (l : list A) : list A :=
  match i, l with
  | O, _ => x :: l
  | S _, [] => [x]
  | S i', y :: l' => y :: py_insert i' x l'
  end.

(** The removal loop: [removedItems.append(orderedItems.pop(index))]. *)
Fixpoint remove_loop (items : list witem) (ordered removed : list witem)
  : option (list witem * list witem) :=
  match items with
  | [] => Some (ordered, removed)
  | it :: items' =>
      match py_index it ordered with
      | None => None
      | Some i =>
          match ordered !! i with
          | Some x => remove_loop items' (delete i ordered) (removed ++ [x])
          | None => None
          end
      end
  end.

(** The reinsertion loop: [for item in removedItems: orderedItems.insert(row, item)]. *)
Definition reinsert (row : nat) (removed ordered : list witem) : list witem :=
  foldl (fun acc it => py_insert row it acc) ordered removed.

(** [setText] mutates the item objects in place: the widget's own list
    [self.items()] sees the new texts. [current] is that list, [updated]
    the mutated objects. *)
Definition refresh (updated : list witem) (current : list witem) : list witem :=
  map (fun r => default r (List.find (fun r' => Nat.eqb (r_id r') (r_id r)) updated)) current.

(** [moveItems(items, itemAt)] over the widget's current items [current]
    (display order); returns the rows after the final [sortByColumn] by
    "Custom Order", which sorts [self.items()] ([None] when a [list.index]
    raises). *)
Definition moveItems (v : view) (groupColumn : colref) (items : list witem)
    (itemAt : option witem) (current : list witem) : option (list drow) :=
  let column := columnFromLabel v "Custom Order" in
  let orderedItems := itemsCustomOrder current in
  let row := match itemAt with
             | Some t => py_index t orderedItems
             | None => Some 0
             end in
  match row with
  | None => None
  | Some row =>
      match remove_loop items orderedItems [] with
      | None => None
      | Some (ordered, removed) =>
          let ordered' := setItemsCustomOrder (reinsert row removed ordered) in
          Some (sortByColumn v (ColIdx column) Ascending groupColumn (Some (v_groupOrder v))
                             (refresh ordered' current))
      end
  end.

End Tree.

(* ------------------------------------------------------------------ *)
(** ** Concrete inputs used by the examples below *)
(* ------------------------------------------------------------------ *)

Module Fixtures.
Import Store Tree.

(** A clock giving the [n]-th write the time [n]. *)
Definition stamp0 (n : nat) : Z := Z.of_nat n.

(** A fresh model ([setDirty(True)]) with no database file on disk. *)
Definition st_empty : state := mkState None None ∅ 0.

Definition px : string := "/lib/x.pose".
Definition rec_a : record := {[ "a" := JInt 1 ]}.
Definition rec_b : record := {[ "b" := JInt 2 ]}.

(** A database file holding a custom order for [px]. *)
Definition st_co3 : state :=
  mkState (Some (mkFile (Some {[ px := {[ "Custom Order" := JStr "00003" ]} ]}) 7)) None ∅ 0.

Definition item_x : item :=
  mkItem px (fun c => if String.eqb c "Custom Order" then "00001" else "").

(** A database file with a stale record at the copy destination. *)
Definition st_stale : state :=
  mkState (Some (mkFile (Some {[ "/lib/b.pose" := {[ "Custom Order" := JStr "00007" ]} ]}) 7))
          None ∅ 0.

Definition item_a : item := mkItem "/lib/a.pose" (fun _ => "").

(** Tree rows: an id, a custom-order text and a displayed category. *)
Definition mkw (i : nat) (co cat : string) : witem :=
  mkRow i (fun l => if String.eqb l "Custom Order" then co
                    else if String.eqb l "Category" then cat else "")
        (fun c => if Z.eqb c 1 then cat else "").

Definition view0 : view := mkView ["Name"; "Category"; "Custom Order"] Ascending.

Definition w1 := mkw 1 "00001" "".
Definition w2 := mkw 2 "00002" "".
Definition w3 := mkw 3 "00003" "".
Definition w4 := mkw 4 "00004" "".

Definition drow_id (d : drow) : nat := match d with DItem r => r_id r | DHeader _ => 0 end.
Definition drow_order (d : drow) : string :=
  match d with DItem r => r_text r "Custom Order" | DHeader t => t end.

(** Two rows whose category texts are [""] and ["a"]. *)
Definition g1 := mkw 1 "00001" "".
Definition g2 := mkw 2 "00002" "a".

Definition is_header (d : drow) : bool := match d with DHeader _ => true | _ => false end.

(** Number of maximal runs of equal adjacent values. *)
Fixpoint runs_after (prev : string) (l : list string) : nat :=
  match l with
  | [] => 0
  | x :: l' => (if String.eqb x prev then 0 else 1) + runs_after x l'
  end.

Definition count_runs (l : list string) : nat :=
  match l with
  | [] => 0
  | x :: l' => S (runs_after x l')
  end.

End Fixtures.

(* ------------------------------------------------------------------ *)
(** ** More of [LibraryModel]: the watcher callback and removal *)
(* ------------------------------------------------------------------ *)

Module Store2.
Import Store.

Section Model.
Variable stamp : nat -> Z.

(** [LibraryModel._fileChanged]: returns the state and whether
    [fileChanged] was emitted. *)
Definition fileChanged (st : state) : state * bool :=
  if isDirty st then (setDirty false st, true) else (st, false).

(** The loop of [LibraryModel.removePaths] on one path:
    [if path in data: del data[path]]. *)
Definition remove_one (d : db) (path : string) : db :=
  match d !! path with
  | Some _ => delete path d
  | None => d
  end.

(** [LibraryModel.removePaths]. *)
Definition removePaths (paths : list string) (st : state) : state :=
  let '(st1, d) := read st in
  let d' := foldl remove_one d (normPaths paths) in
  save stamp d' (set_data d' st1).

(** The deletions [cmds.removePath] performs on disk. *)
Inductive rm_action :=
| Remove (path : string)   (* os.remove *)
| RmTree (path : string).  (* shutil.rmtree *)

(** [cmds.removePath]: [isfile] and [isdir] are [os.path.isfile] and
    [os.path.isdir]. *)
Definition removePath (isfile isdir : string -> bool) (path : string) : list rm_action :=
  if isfile path then [Remove path]
  else if isdir path then [RmTree path]
  else [].

(** [LibraryModel.removePath]: delete on disk, then [self.removePaths([path])]. *)
Definition model_removePath (isfile isdir : string -> bool) (path : string) (st : state)
  : list rm_action * state :=
  let acts := removePath isfile isdir path in
  (acts, removePaths [path] st).

End Model.
End Store2.

(* ------------------------------------------------------------------ *)
(** ** More of [cmds]: the item registry, [movePath] and [timeAgo] *)
(* ------------------------------------------------------------------ *)

Module Cmds2.
Import Cmds.

(** [s.endswith(suffix)]. *)
Definition endswith (suffix s : string) : bool :=
  (String.length suffix <=? String.length s)%nat &&
  String.eqb (substring (String.length s - String.length suffix) (String.length suffix) s)
             suffix.

(** The value [registerItem] stores for an extension: the item class
    (named by a string), [isDir], [isFile] and [ignore]. *)
Record reg := mkReg {
  cls : string;
  isDir : bool;
  isFile : bool;
  ignore : option string;
}.

(** [_itemClasses], an [OrderedDict] from extension to [reg]: an
    association list in insertion order, one entry per key. *)
Definition registry := list (string * reg).

(** [od[key] = value] on an [OrderedDict]: an existing key keeps its
    position and gets the new value; a new key goes last. *)
Fixpoint od_set (key : string) (value : reg) (r : registry) : registry :=
  match r with
  | [] => [(key, value)]
  | (k, v) :: r' => if String.eqb k key then (k, value) :: r' else (k, v) :: od_set key value r'
  end.

(** [registerItem(cls, extension, isDir, isFile, ignore)]. *)
Definition registerItem (cls_ extension : string) (isDir_ isFile_ : bool)
    (ignore_ : option string) (r : registry) : registry :=
  od_set extension (mkReg cls_ isDir_ isFile_ ignore_) r.

(** [ignore and ignore in path]. *)
Definition ignored (val : reg) (path : string) : bool :=
  match ignore val with
  | Some ig => negb (String.eqb ig "") && Str.contains ig path
  | None => false
  end.

(** [itemFromPath(path)]: the loop over [_itemClasses] with its [continue]
    and [break]; returns the class the item is created with, or [None]. *)
Fixpoint itemFromPath (isdir isfile : string -> bool) (path : string) (r : registry)
  : option string :=
  match r with
  | [] => None
  | (ext, val) :: r' =>
      if endswith ext path then
        if ignored val path then itemFromPath isdir isfile path r'
        else if (isDir val && isdir path) || (isFile val && isfile path) then Some (cls val)
        else itemFromPath isdir isfile path r'
      else itemFromPath isdir isfile path r'
  end.

(** Outcome of [movePath]. *)
Inductive move_result :=
| MoveMissing (src : string)   (* IOError('No such file or directory: ...') *)
| MoveCannot (path : string)   (* the ValueError of generateUniquePath *)
| Moved (src dst : string).    (* shutil.move(src, dst); returns dst *)

(** [cmds.movePath(src, dst)], with [generateUniquePath] run with [fuel]
    loop tests ([None] when the fuel runs out). *)
Definition movePath (fuel : nat) (exists_ isdir : string -> bool) (src dst : string)
  : option move_result :=
  let '(_, name, extension) := splitPath src in
  if negb (exists_ src) then Some (MoveMissing src)
  else if isdir src then
    match generateUniquePath fuel exists_ (dst ++ "/" ++ name ++ extension) 1000 with
    | None => None
    | Some (CannotGenerate p) => Some (MoveCannot p)
    | Some (Unique p) => Some (Moved src p)
    end
  else Some (Moved src dst).



End Cmds2.

(* ------------------------------------------------------------------ *)
(** ** More of [CombinedTreeWidget] *)
(* ------------------------------------------------------------------ *)

Module Tree2.
Import Tree.

(** [updateCustomOrder] over [self.items()]: [row] counts every item,
    and only an item with an empty custom order gets [str(row).zfill(5)]. *)
Fixpoint updateCustomOrder_from (row padding : nat) (items : list witem) : list witem :=
  match items with
  | [] => []
  | it :: items' =>
      let it' := if String.eqb (r_text it "Custom Order") ""
                 then setText "Custom Order" (Str.zfill (Str.dec row) padding) it
                 else it in
      it' :: updateCustomOrder_from (S row) padding items'
  end.

Definition updateCustomOrder (items : list witem) : list witem :=
  updateCustomOrder_from 1 5 items.

(** The items among the rows put back into the widget (group items
    dropped), in display order. *)
Definition shown_items (rows : list drow) : list witem :=
  omap (fun d => match d with DItem r => Some r | DHeader _ => None end) rows.

End Tree2.

(** The last [k] decimal digits of [n], most significant first, and a run of
    ["0"]s as [zfill] builds it: used to compare [zfill]ed numbers. *)
Module Digits.

Fixpoint digits (k n : nat) : string :=
  match k with
  | O => ""
  | S k' => digits k' (n / 10) ++ String (ascii_of_nat (48 + n mod 10)) ""
  end.

Definition zeros (j : nat) : string := string_of_list_ascii (repeat "0"%char j).

End Digits.

(* ================================================================== *)
(** * Properties *)
(* ================================================================== *)

(** The posixpath helpers on the paths used below. *)
Example dirname_ex1 : Str.dirname "/lib/a.anim" = "/lib".
Proof. reflexivity. Qed.
Example dirname_ex2 : Str.dirname "/a" = "/".
Proof. reflexivity. Qed.
Example splitext_ex1 : Str.splitext "/lib/a.anim" = ("/lib/a", ".anim").
Proof. reflexivity. Qed.
Example splitext_ex2 : Str.splitext "/lib/.hidden" = ("/lib/.hidden", "").
Proof. reflexivity. Qed.
Example zfill_ex : Str.zfill (Str.dec 42) 5 = "00042".
Proof. reflexivity. Qed.

Module StoreFacts.
Import Store.

Section Facts.
Variable stamp : nat -> Z.

Lemma read_clean (st : state) :
  m_rec (read st).1 = mtime (read st).1 /\ (read st).2 = m_data (read st).1 /\
  m_file (read st).1 = m_file st /\ m_writes (read st).1 = m_writes st.
Proof.
  unfold read. destruct (isDirty st) eqn:Hd; simpl; [tauto|].
  unfold isDirty in Hd. apply bool_decide_eq_false in Hd.
  apply dec_stable in Hd. auto.
Qed.

Lemma read_when_clean (st : state) :
  m_rec st = mtime st -> read st = (st, m_data st).
Proof.
  intros H. unfold read, isDirty. rewrite bool_decide_eq_false_2; [done|].
  intros Hne. exact (Hne H).
Qed.

Lemma read_saved (st : state) (d : db) (t : Z) :
  m_file st = Some (mkFile (Some d) t) -> m_data st = d -> (read st).2 = d.
Proof.
  intros Hf Hm. unfold read. destruct (isDirty st); simpl; [|done].
  unfold readJson. by rewrite Hf.
Qed.

Lemma sync_insert_mono (found : list string) (d : db) (b : bool) (p : string) :
  is_Some (d !! p) -> is_Some ((sync_insert found d b).1 !! p).
Proof.
  revert d b. induction found as [|q found IH]; intros d b Hp; simpl; [done|].
  destruct (d !! q) eqn:Hq; apply IH; [done|].
  destruct (decide (q = p)) as [->|Hne].
  - rewrite lookup_insert_eq; eauto.
  - rewrite lookup_insert_ne; auto.
Qed.

Lemma sync_insert_found (found : list string) (d : db) (b : bool) (p : string) :
  In p found -> is_Some ((sync_insert found d b).1 !! p).
Proof.
  revert d b. induction found as [|q found IH]; intros d b Hin; [done|].
  simpl. destruct Hin as [->|Hin].
  - destruct (d !! p) eqn:Hp; apply sync_insert_mono; [eauto|].
    rewrite lookup_insert_eq; eauto.
  - destruct (d !! q); apply IH; done.
Qed.

Lemma sync_insert_keys (found : list string) (d : db) (b : bool) (k : string) :
  is_Some ((sync_insert found d b).1 !! k) -> is_Some (d !! k) \/ In k found.
Proof.
  revert d b. induction found as [|q found IH]; intros d b Hk; simpl in *; [by left|].
  destruct (d !! q) eqn:Hq.
  - destruct (IH _ _ Hk) as [H|H]; auto.
  - destruct (IH _ _ Hk) as [H|H]; auto.
    destruct (decide (k = q)) as [->|Hne]; auto.
    rewrite lookup_insert_ne in H; auto.
Qed.

Lemma sync_insert_all_present (found : list string) (d : db) :
  (forall p, In p found -> is_Some (d !! p)) -> sync_insert found d false = (d, false).
Proof.
  induction found as [|q found IH]; intros H; simpl; [done|].
  destruct (H q (or_introl eq_refl)) as [r Hr]. rewrite Hr.
  apply IH. intros p Hp. apply H. by right.
Qed.

Lemma sync_delete_all_exist (exists_ : string -> bool) (d : db) :
  (forall k, is_Some (d !! k) -> exists_ k = true) -> sync_delete exists_ d = (d, false).
Proof.
  intros H. unfold sync_delete. f_equal.
  - apply map_filter_id. intros k r Hk. apply H. eauto.
  - apply not_true_iff_false. intros Hex. apply existsb_exists in Hex.
    destruct Hex as [k [Hk Hneg]]. apply in_map_iff in Hk.
    destruct Hk as [[k' r] [<- Hin]]. apply list_elem_of_In in Hin.
    apply elem_of_map_to_list in Hin. simpl in Hneg.
    rewrite H in Hneg; [done|]. eauto.
Qed.

Lemma sync_delete_exist (exists_ : string -> bool) (d : db) (k : string) :
  is_Some ((sync_delete exists_ d).1 !! k) -> exists_ k = true.
Proof.
  unfold sync_delete. simpl. intros [r Hr].
  apply map_lookup_filter_Some in Hr. apply Hr.
Qed.

End Facts.
End StoreFacts.

(** The snapshot a [sync] leaves behind is what the next [read] returns,
    whether or not that [read] reloads the file. *)
Lemma sync_then_read (stamp : nat -> Z) (exists_ : string -> bool) (found : list string)
    (st : Store.state) :
  let '(st1, d) := Store.read st in
  let '(d1, b1) := Store.sync_delete exists_ d in
  (Store.read (Store.sync stamp exists_ found st).1).2 = (Store.sync_insert found d1 b1).1.
Proof.
  destruct (Store.read st) as [st1 d] eqn:Hr.
  destruct (Store.sync_delete exists_ d) as [d1 b1] eqn:Hdel.
  unfold Store.sync. rewrite Hr, Hdel.
  destruct (Store.sync_insert found d1 b1) as [d2 b2] eqn:Hins. simpl.
  pose proof (StoreFacts.read_clean st) as (Hc & _ & _ & _). rewrite Hr in Hc. simpl in Hc.
  destruct b2; simpl.
  - apply (StoreFacts.read_saved _ d2 (stamp (Store.m_writes st1))); reflexivity.
  - rewrite StoreFacts.read_when_clean; [done|].
    unfold Store.set_data, Store.mtime. simpl. exact Hc.
Qed.

(** C3: when every path reported by item discovery exists on disk and the
    filesystem does not change, a second [sync()] right after a first one
    deletes nothing, inserts nothing and emits no [dataChanged]: over the two
    calls the notification is emitted at most once. *)
Theorem sync_idempotent_notification (stamp : nat -> Z) (exists_ : string -> bool)
    (found : list string) (st : Store.state) :
  (forall p, In p found -> exists_ p = true) ->
  (Store.sync stamp exists_ found (Store.sync stamp exists_ found st).1).2 = false.
Proof.
  intros Hfound.
  pose proof (sync_then_read stamp exists_ found st) as Hread.
  destruct (Store.read st) as [st1 d] eqn:Hr.
  destruct (Store.sync_delete exists_ d) as [d1 b1] eqn:Hdel.
  set (d2 := (Store.sync_insert found d1 b1).1) in *.
  assert (Hkeys : forall k, is_Some (d2 !! k) -> exists_ k = true).
  { intros k Hk. destruct (StoreFacts.sync_insert_keys _ _ _ _ Hk) as [H|H]; auto.
    apply (StoreFacts.sync_delete_exist exists_ d). by rewrite Hdel. }
  assert (Hin : forall p, In p found -> is_Some (d2 !! p)).
  { intros p Hp. by apply StoreFacts.sync_insert_found. }
  set (st3 := (Store.sync stamp exists_ found st).1) in *.
  unfold Store.sync at 1.
  destruct (Store.read st3) as [st4 d'] eqn:Hr3. simpl in Hread. subst d'.
  rewrite (StoreFacts.sync_delete_all_exist exists_ d2 Hkeys).
  rewrite (StoreFacts.sync_insert_all_present found d2 Hin).
  reflexivity.
Qed.

(** Python's [sorted] as embedded: a permutation, ordered, and stable. *)
Module SortFacts.
Import Tree.

Section Sorting.
Context {A : Type}.
Variable key : A -> string.
Variable reverse : bool.

Definition R (a b : A) : Prop := before key reverse a b = true.

Lemma string_leb_refl (s : string) : String.leb s s = true.
Proof. by destruct (String.leb_total s s). Qed.

Lemma before_total (x y : A) : before key reverse x y = false -> before key reverse y x = true.
Proof.
  unfold before. intros H. destruct reverse;
    destruct (String.leb_total (key x) (key y)); congruence.
Qed.

Lemma before_same_key (x y : A) : key x = key y -> before key reverse x y = true.
Proof. unfold before. intros ->. destruct reverse; apply string_leb_refl. Qed.

Lemma insert_sorted_perm (x : A) (l : list A) : Permutation (x :: l) (insert_sorted key reverse x l).
Proof.
  induction l as [|y l IH]; simpl; [done|].
  destruct (before key reverse x y); [done|].
  eapply perm_trans; [apply perm_swap|]. by apply perm_skip.
Qed.

Lemma py_sorted_perm (l : list A) : Permutation l (py_sorted key reverse l).
Proof.
  induction l as [|x l IH]; simpl; [done|].
  eapply perm_trans; [apply perm_skip, IH|]. apply insert_sorted_perm.
Qed.

Lemma insert_sorted_sorted (x : A) (l : list A) :
  Sorted R l -> Sorted R (insert_sorted key reverse x l).
Proof.
  induction l as [|y l IH]; intros Hs; simpl; [by repeat constructor|].
  destruct (before key reverse x y) eqn:Hxy.
  - constructor; [done|]. by constructor.
  - apply Sorted_inv in Hs as [Hl Hhd]. constructor; [by apply IH|].
    destruct l as [|z l']; simpl.
    + constructor. by apply before_total.
    + apply HdRel_inv in Hhd. destruct (before key reverse x z); constructor; auto.
      by apply before_total.
Qed.

Lemma py_sorted_sorted (l : list A) : Sorted R (py_sorted key reverse l).
Proof.
  induction l as [|x l IH]; simpl; [constructor|]. by apply insert_sorted_sorted.
Qed.

Definition same_key (k : string) (a : A) : bool := String.eqb (key a) k.

Lemma insert_sorted_filter (k : string) (x : A) (l : list A) :
  List.filter (same_key k) (insert_sorted key reverse x l) = List.filter (same_key k) (x :: l).
Proof.
  induction l as [|y l IH]; simpl; [done|].
  destruct (before key reverse x y) eqn:Hxy; [done|].
  simpl. rewrite IH. simpl. unfold same_key.
  destruct (String.eqb_spec (key y) k) as [Hy|Hy];
    destruct (String.eqb_spec (key x) k) as [Hx|Hx]; try done.
  rewrite before_same_key in Hxy; [discriminate|congruence].
Qed.

Lemma py_sorted_stable (k : string) (l : list A) :
  List.filter (same_key k) (py_sorted key reverse l) = List.filter (same_key k) l.
Proof.
  induction l as [|x l IH]; simpl; [done|].
  rewrite insert_sorted_filter. simpl. by rewrite IH.
Qed.

End Sorting.
End SortFacts.

(** The loop of [generateUniquePath] finishes within its attempt budget. *)
Module UniqueFacts.
Import Cmds.

Section Loop.
Variable exists_ : string -> bool.
Variables dirname name extension : string.
Variable attempts : Z.

Definition good (r : unique_result) : Prop :=
  match r with Unique p => exists_ p = false | CannotGenerate _ => True end.

Lemma unique_loop_mono (fuel fuel' : nat) (attempt : nat) (path : string) (r : unique_result) :
  (fuel <= fuel')%nat ->
  unique_loop fuel exists_ dirname name extension attempts attempt path = Some r ->
  unique_loop fuel' exists_ dirname name extension attempts attempt path = Some r.
Proof.
  revert fuel' attempt path. induction fuel as [|f IH]; intros fuel' attempt path Hle H;
    [discriminate|].
  destruct fuel' as [|f']; [lia|]. simpl in *.
  destruct (exists_ path); [|done].
  destruct (attempts <=? Z.of_nat (S attempt))%Z; [done|].
  apply IH; [lia|done].
Qed.

Lemma unique_loop_finishes (fuel : nat) (attempt : nat) (path : string) :
  (1 <= fuel)%nat -> (attempts - Z.of_nat attempt <= Z.of_nat fuel)%Z ->
  exists r, unique_loop fuel exists_ dirname name extension attempts attempt path = Some r /\
            good r.
Proof.
  revert attempt path. induction fuel as [|f IH]; intros attempt path H1 H2; [lia|].
  simpl. destruct (exists_ path) eqn:He.
  - destruct (attempts <=? Z.of_nat (S attempt))%Z eqn:Ha.
    + eexists. split; [reflexivity|]. exact I.
    + apply Z.leb_gt in Ha. apply IH; lia.
  - exists (Unique path). split; [reflexivity|]. exact He.
Qed.

End Loop.
End UniqueFacts.

Module Claims.
Import Store Fixtures.

(** Witness for C3: one discovered item [/lib/x.pose] on an empty database. *)
Lemma sync_idempotent_notification_witness :
  (forall p, In p [px] -> (fun _ => true) p = true) /\
  (sync stamp0 (fun _ => true) [px] (sync stamp0 (fun _ => true) [px] st_empty).1).2 = false.
Proof.
  split.
  - intros p _. reflexivity.
  - apply sync_idempotent_notification. intros p _. reflexivity.
Defined.

(** The end-to-end case of the spec: [sync()] on an empty database and one
    discovered item stores [{"/lib/x.pose": {}}] and notifies once. *)
Example sync_end_to_end :
  (sync stamp0 (fun _ => true) [px] st_empty).2 = true /\
  readJson (sync stamp0 (fun _ => true) [px] st_empty).1 = {[ px := ∅ ]}.
Proof. split; reflexivity. Qed.

(** One [updatePaths([p], r)]: the file and the next [read] both hold the
    snapshot updated at the normalized [p]. *)
Lemma updatePaths_one (stamp : nat -> Z) (st : state) (p : string) (r : record) :
  readJson (updatePaths stamp [p] r st) = update_one r (read st).2 (normPath p) /\
  (read (updatePaths stamp [p] r st)).2 = update_one r (read st).2 (normPath p).
Proof.
  unfold updatePaths. destruct (read st) as [st1 d] eqn:Hr. simpl. split; [reflexivity|].
  apply (StoreFacts.read_saved _ _ (stamp (m_writes st1))); reflexivity.
Qed.

(** C1 (counterexample): [updateJson({p: {"a":1}})] then
    [updateJson({p: {"b":2}})] leaves [{p: {"b":2}}], not [{p: {"a":1,"b":2}}]. *)
Lemma updateJson_replaces_record :
  (readJson (updateJson stamp0 {[ px := rec_b ]} (updateJson stamp0 {[ px := rec_a ]} st_empty))
    !! px) = Some rec_b /\
  rec_b <> <[ "a" := JInt 1 ]> rec_b.
Proof.
  split; [reflexivity|].
  intros H. assert (Ha : rec_b !! "a" = Some (JInt 1)).
  { rewrite H. apply lookup_insert_eq. }
  discriminate Ha.
Qed.

(** C1 (amended): [updateJson] is a top-level [dict.update]: the second
    partial record replaces the record of [p] wholesale. Shallow merging is
    what [LibraryModel.updatePaths] does: after [updatePaths([p], r1)] and
    [updatePaths([p], r2)] the record of the normalized [p] is
    [r2 ∪ r1 ∪ old] (later keys win; [old] is [{}] when absent). *)
Theorem update_record_semantics (stamp : nat -> Z) (st : state) (p : string) (r1 r2 : record) :
  (readJson (updateJson stamp {[ p := r2 ]} (updateJson stamp {[ p := r1 ]} st)) !! p) = Some r2 /\
  (readJson (updatePaths stamp [p] r2 (updatePaths stamp [p] r1 st)) !! normPath p) =
    Some (r2 ∪ (r1 ∪ default ∅ ((read st).2 !! normPath p))).
Proof.
  split.
  - unfold updateJson, saveJson, readJson. simpl.
    apply lookup_union_Some_l, lookup_singleton_eq.
  - destruct (updatePaths_one stamp (updatePaths stamp [p] r1 st) p r2) as [H2 _].
    destruct (updatePaths_one stamp st p r1) as [_ H1].
    rewrite H2, H1.
    assert (Hk : update_one r1 (read st).2 (normPath p) !! normPath p
                 = Some (r1 ∪ default ∅ ((read st).2 !! normPath p))).
    { unfold update_one. destruct ((read st).2 !! normPath p); simpl.
      - apply lookup_insert_eq.
      - rewrite map_union_empty. apply lookup_insert_eq. }
    unfold update_one at 1. rewrite Hk. apply lookup_insert_eq.
Qed.

(** Facts on the record built by [saveItemData]. *)
Section SaveItemData.
Variable columns : list string.
Variable p : string.

Lemma setdefault_column_other (it : item) (path : string) (d : db) (c : string) :
  path <> p -> Lib.setdefault_column it path d c !! p = d !! p.
Proof.
  intros Hne. unfold Lib.setdefault_column.
  destruct (default ∅ (d !! path) !! c); [done|]. by apply lookup_insert_ne.
Qed.

Lemma fold_setdefault_other (it : item) (path : string) (cs : list string) (d : db) :
  path <> p -> foldl (Lib.setdefault_column it path) d cs !! p = d !! p.
Proof.
  intros Hne. revert d. induction cs as [|c cs IH]; intros d; simpl; [done|].
  rewrite IH. by apply setdefault_column_other.
Qed.

Lemma save_item_other (d : db) (j : item) :
  i_path j <> p -> Lib.save_item columns d j !! p = d !! p.
Proof.
  intros Hne. unfold Lib.save_item. rewrite fold_setdefault_other by done.
  destruct (d !! i_path j); [done|]. by apply lookup_insert_ne.
Qed.

Lemma foldl_save_item_other (pre : list item) (d : db) :
  (forall j, In j pre -> i_path j <> p) -> foldl (Lib.save_item columns) d pre !! p = d !! p.
Proof.
  revert d. induction pre as [|j pre IH]; intros d Hpre; simpl; [done|].
  rewrite IH by (intros j' Hj'; apply Hpre; by right).
  apply save_item_other. apply Hpre. by left.
Qed.

(** The record of [p] holds, for every requested column, the text of [it]. *)
Definition filled (it : item) (d : db) : Prop :=
  exists r, d !! p = Some r /\
    forall c, In c columns -> r !! c = Some (JStr (i_text it c)).

Lemma fold_setdefault_keep (it j : item) (cs : list string) (d : db) :
  (forall c, In c cs -> In c columns) -> filled it d ->
  foldl (Lib.setdefault_column j p) d cs = d.
Proof.
  revert d. induction cs as [|c cs IH]; intros d Hcs Hf; simpl; [done|].
  destruct Hf as [r [Hr Hc]].
  assert (Hd : Lib.setdefault_column j p d c = d).
  { unfold Lib.setdefault_column. rewrite Hr. simpl.
    rewrite (Hc c (Hcs c (or_introl eq_refl))). done. }
  rewrite Hd. apply IH; [|by exists r]. intros c' Hc'. apply Hcs. by right.
Qed.

Lemma save_item_keep (it j : item) (d : db) :
  filled it d -> filled it (Lib.save_item columns d j).
Proof.
  intros Hf. destruct (decide (i_path j = p)) as [Heq|Hne].
  - unfold Lib.save_item. pose proof Hf as Hf0. destruct Hf as [r [Hr Hc]].
    rewrite Heq, Hr. rewrite (fold_setdefault_keep it j columns d); [done | | done].
    intros c Hc'. exact Hc'.
  - destruct Hf as [r [Hr Hc]]. exists r. rewrite save_item_other by done. auto.
Qed.

Lemma fold_setdefault_fill (it : item) (cs : list string) (d : db) (r : record) :
  d !! p = Some r -> (forall c v, r !! c = Some v -> v = JStr (i_text it c)) ->
  exists r', foldl (Lib.setdefault_column it p) d cs !! p = Some r' /\
    (forall c v, r' !! c = Some v -> v = JStr (i_text it c)) /\
    (forall c, In c cs -> is_Some (r' !! c)) /\
    (forall c, is_Some (r !! c) -> is_Some (r' !! c)).
Proof.
  revert d r. induction cs as [|c cs IH]; intros d r Hr Hv; simpl.
  - exists r. repeat split; auto. intros c [].
  - unfold Lib.setdefault_column at 2. rewrite Hr. simpl.
    destruct (r !! c) as [v|] eqn:Hrc.
    + destruct (IH d r Hr Hv) as (r' & H1 & H2 & H3 & H4).
      exists r'. repeat split; auto.
      intros c' [<-|Hc']; [apply H4; by rewrite Hrc | auto].
    + destruct (IH (<[p := <[c := JStr (i_text it c)]> r]> d) (<[c := JStr (i_text it c)]> r))
        as (r' & H1 & H2 & H3 & H4).
      * apply lookup_insert_eq.
      * intros c' v Hc'. destruct (decide (c' = c)) as [->|Hne].
        -- rewrite lookup_insert_eq in Hc'. congruence.
        -- rewrite lookup_insert_ne in Hc' by congruence. eauto.
      * exists r'. repeat split; auto.
        -- intros c' [<-|Hc']; auto. apply H4. rewrite lookup_insert_eq. eauto.
        -- intros c' Hc'. apply H4. destruct (decide (c' = c)) as [->|Hne].
           ++ rewrite lookup_insert_eq. eauto.
           ++ by rewrite lookup_insert_ne by congruence.
Qed.

Lemma save_item_first (it : item) (d : db) :
  i_path it = p -> d !! p = None -> filled it (Lib.save_item columns d it).
Proof.
  intros Hp Hd. unfold Lib.save_item. rewrite Hp, Hd.
  destruct (fold_setdefault_fill it columns (<[p := ∅]> d) ∅) as (r' & H1 & H2 & H3 & _).
  - apply lookup_insert_eq.
  - intros c v Hc. by rewrite lookup_empty in Hc.
  - exists r'. split; [done|]. intros c Hc.
    destruct (H3 c Hc) as [v Hv]. rewrite Hv. f_equal. eauto.
Qed.

Lemma foldl_save_item_keep (it : item) (post : list item) (d : db) :
  filled it d -> filled it (foldl (Lib.save_item columns) d post).
Proof.
  revert d. induction post as [|j post IH]; intros d Hf; simpl; [done|].
  apply IH. by apply save_item_keep.
Qed.

End SaveItemData.

(** C5 (counterexample): a custom order persisted as ["00003"] is
    overwritten by the item's current text ["00001"]. *)
Lemma saveItemData_overwrites_persisted :
  (readJson st_co3 !! px) ≫= (fun r => r !! "Custom Order") = Some (JStr "00003") /\
  (readJson (Lib.saveItemData stamp0 [item_x] None st_co3) !! px) ≫= (fun r => r !! "Custom Order")
    = Some (JStr "00001").
Proof. split; reflexivity. Qed.

(** C5 (amended): [saveItemData] writes, for every requested column, the
    current text of the first of the given items with path [p] into the
    persisted record of [p], whatever value an earlier call persisted there:
    first-write-wins holds only among the items of one call. *)
Theorem saveItemData_writes_first_item (stamp : nat -> Z) (st : state) (items : list item)
    (columns : option (list string)) (pre : list item) (it : item) (post : list item)
    (c : string) :
  items = (pre ++ it :: post)%list ->
  (forall j, In j pre -> i_path j <> i_path it) ->
  In c (Lib.default_columns columns) ->
  (readJson (Lib.saveItemData stamp items columns st) !! i_path it) ≫= (fun r => r !! c)
    = Some (JStr (i_text it c)).
Proof.
  intros -> Hpre Hc. unfold Lib.saveItemData, updateJson, saveJson, readJson. simpl.
  set (cols := Lib.default_columns columns).
  rewrite foldl_app. simpl.
  assert (Hnone : foldl (Lib.save_item cols) ∅ pre !! i_path it = None).
  { rewrite foldl_save_item_other; [apply lookup_empty | done]. }
  destruct (foldl_save_item_keep cols (i_path it) it post _
              (save_item_first cols (i_path it) it _ eq_refl Hnone)) as [r [Hr Hrc]].
  erewrite lookup_union_Some_l by exact Hr. simpl. by apply Hrc.
Qed.

(** Witness for C5: one item, the default column, a persisted ["00003"]. *)
Lemma saveItemData_writes_first_item_witness :
  [item_x] = ([] ++ item_x :: [])%list /\
  (readJson (Lib.saveItemData stamp0 [item_x] None st_co3) !! i_path item_x)
    ≫= (fun r => r !! "Custom Order") = Some (JStr (i_text item_x "Custom Order")).
Proof.
  split; [reflexivity|].
  apply (saveItemData_writes_first_item stamp0 st_co3 [item_x] None [] item_x []).
  - reflexivity.
  - intros j [].
  - simpl. left. reflexivity.
Defined.

(** C6 (counterexample): right after construction ([setDirty(True)]) with no
    database file on disk, [_mtime] and [mtime()] are both None: the model
    is clean and [read()] returns the cached snapshot without reloading. *)
Lemma not_dirty_when_file_absent :
  m_rec st_empty = None /\ isDirty st_empty = false /\
  read st_empty = (st_empty, m_data st_empty).
Proof. repeat split. Qed.

(** C6 (amended): with the recorded timestamp None, the model is dirty
    exactly when the database file exists; then [read()] reloads the file
    and records its mtime; when the file is absent, [read()] returns the
    cached snapshot unchanged. *)
Theorem dirty_iff_file_exists (stamp : nat -> Z) (st : state) :
  m_rec st = None ->
  (isDirty st = true <-> is_Some (m_file st)) /\
  (is_Some (m_file st) ->
     read st = (mkState (m_file st) (mtime st) (readJson st) (m_writes st), readJson st)) /\
  (m_file st = None -> read st = (st, m_data st)).
Proof.
  intros Hrec. unfold isDirty, mtime. rewrite Hrec.
  split; [|split].
  - rewrite bool_decide_eq_true. destruct (m_file st); simpl.
    + split; [eauto|]. intros _. discriminate.
    + split; [tauto|]. intros [x Hx]. discriminate.
  - intros [f Hf].
    assert (Hd : isDirty st = true).
    { unfold isDirty, mtime. rewrite Hrec, Hf. apply bool_decide_eq_true_2. discriminate. }
    unfold read. rewrite Hd. reflexivity.
  - intros Hf. apply StoreFacts.read_when_clean. unfold mtime. by rewrite Hrec, Hf.
Qed.

(** Witness for C6: a database file written at time 7, nothing recorded. *)
Lemma dirty_iff_file_exists_witness :
  m_rec st_co3 = None /\ isDirty st_co3 = true.
Proof.
  split; [reflexivity|].
  destruct (dirty_iff_file_exists stamp0 st_co3 eq_refl) as [[_ H] _].
  apply H. simpl. eauto.
Defined.

(** [addPaths([path])] with the default [{}]: the record of the normalized
    path becomes its previous record, or [{}] when it had none. *)
Lemma update_one_empty (d : db) (k : string) :
  update_one ∅ d k = <[k := default ∅ (d !! k)]> d.
Proof.
  unfold update_one. destruct (d !! k) eqn:Hk; simpl; [|done].
  by rewrite map_empty_union.
Qed.

Lemma copy_loop_db (stamp : nat -> Z) (isfile : string -> bool) (items : list item)
    (dst : string) (st : state) :
  items <> [] ->
  readJson (Lib.copy_loop stamp isfile items dst st).1.1
    = <[normPath dst := default ∅ ((read st).2 !! normPath dst)]> (read st).2 /\
  (read (Lib.copy_loop stamp isfile items dst st).1.1).2
    = <[normPath dst := default ∅ ((read st).2 !! normPath dst)]> (read st).2.
Proof.
  revert st. induction items as [|it items IH]; intros st Hne; [done|].
  simpl. destruct (updatePaths_one stamp st dst ∅) as [H1 H2].
  unfold Lib.model_copyPath, Lib.copyPath, addPaths. simpl.
  destruct items as [|it' items'].
  - simpl. rewrite H1, H2, update_one_empty. done.
  - destruct (Lib.copy_loop stamp isfile (it' :: items') dst (updatePaths stamp [dst] ∅ st))
      as [[st2 acts] its] eqn:Hloop. simpl.
    destruct (IH (updatePaths stamp [dst] ∅ st) ltac:(discriminate)) as [IH1 IH2].
    rewrite Hloop in IH1, IH2. simpl in IH1, IH2.
    rewrite H2, update_one_empty in IH1, IH2.
    rewrite lookup_insert_eq, insert_insert_eq in IH1, IH2. simpl in IH1, IH2.
    split; assumption.
Qed.

(** C10 (counterexample): copying [/lib/a.pose] onto [/lib/b.pose], whose
    stale record holds a custom order, leaves that record in place instead
    of an empty one. *)
Lemma copyItems_keeps_existing_record :
  (readJson (Lib.copyItems stamp0 (fun _ => true) [item_a] "/lib/b.pose" st_stale).1.1.1
     !! "/lib/b.pose") = Some {[ "Custom Order" := JStr "00007" ]} /\
  (Some {[ "Custom Order" := JStr "00007" ]} : option record) <> Some ∅.
Proof.
  split; [reflexivity|]. intros H.
  pose proof (f_equal (fun o => o ≫= (fun r : record => r !! "Custom Order")) H) as Hc.
  vm_compute in Hc. discriminate Hc.
Qed.

(** C10 (amended): after [copyItems(items, dst)] (at least one item) the
    database maps the normalized destination to its previous record when it
    had one and to [{}] otherwise; nothing of the source records is copied
    and every other record, the sources' included, is unchanged. *)
Theorem copyItems_database (stamp : nat -> Z) (isfile : string -> bool) (items : list item)
    (dst : string) (st : state) :
  items <> [] ->
  let d := (read st).2 in
  let d' := readJson (Lib.copyItems stamp isfile items dst st).1.1.1 in
  d' !! normPath dst = Some (default ∅ (d !! normPath dst)) /\
  (forall k, k <> normPath dst -> d' !! k = d !! k).
Proof.
  intros Hne d d'. subst d d'. unfold Lib.copyItems.
  destruct (Lib.copy_loop stamp isfile items dst st) as [[st1 acts] its] eqn:Hloop. simpl.
  destruct (copy_loop_db stamp isfile items dst st Hne) as [H1 _].
  rewrite Hloop in H1. simpl in H1. rewrite H1. split.
  - apply lookup_insert_eq.
  - intros k Hk. by apply lookup_insert_ne.
Qed.

(** Witness for C10: one item copied to a fresh destination on an empty database. *)
Lemma copyItems_database_witness :
  [item_a] <> [] /\
  readJson (Lib.copyItems stamp0 (fun _ => true) [item_a] "/lib/c.pose" st_empty).1.1.1
    !! normPath "/lib/c.pose" = Some ∅.
Proof.
  split; [discriminate|].
  destruct (copyItems_database stamp0 (fun _ => true) [item_a] "/lib/c.pose" st_empty
              ltac:(discriminate)) as [H _].
  rewrite H. reflexivity.
Defined.

(** C8 (counterexample): sorting by "Custom Order" with descending order
    requested keeps ascending order: [00001] stays before [00002]. *)
Lemma sortByColumn_custom_order_not_reversed :
  map drow_id (Tree.sortByColumn view0 (Tree.ColLabel "Custom Order") Tree.Descending
                 Tree.ColNone None [w1; w2]) = [1; 2]%nat /\
  String.ltb (Tree.sortKey "Custom Order" w1) (Tree.sortKey "Custom Order" w2) = true.
Proof. split; reflexivity. Qed.

(** C8 (amended): the sorting step of [sortByColumn] is a stable sort by
    the lowercased text of the sort column: a permutation of the rows,
    ordered (descending when reversed), rows of equal key text in input
    order; it is reversed exactly when descending order is requested and
    the sort column is not "Custom Order"; without a group column the
    displayed rows are exactly this list. *)
Theorem sortByColumn_stable (v : Tree.view) (sortColumn : Tree.colref) (sortOrder : Tree.order)
    (groupOrder : option Tree.order) (items : list Tree.witem) :
  let label := Tree.sortColumnLabel v sortColumn in
  let out := Tree.sortStep v sortColumn sortOrder items in
  Permutation items out /\
  Sorted (SortFacts.R (Tree.sortKey label) (Tree.sortReverse v sortColumn sortOrder)) out /\
  (forall k, List.filter (SortFacts.same_key (Tree.sortKey label) k) out
             = List.filter (SortFacts.same_key (Tree.sortKey label) k) items) /\
  Tree.sortReverse v sortColumn sortOrder
    = (match sortOrder with Tree.Descending => true | Tree.Ascending => false end
       && negb (String.eqb label "Custom Order")) /\
  Tree.sortByColumn v sortColumn sortOrder Tree.ColNone groupOrder items = map Tree.DItem out.
Proof.
  intros label out. subst label out. unfold Tree.sortStep.
  split; [apply SortFacts.py_sorted_perm|].
  split; [apply SortFacts.py_sorted_sorted|].
  split; [intros k; apply SortFacts.py_sorted_stable|].
  split.
  - unfold Tree.sortReverse.
    destruct (String.eqb (Tree.sortColumnLabel v sortColumn) "Custom Order");
      destruct sortOrder; reflexivity.
  - reflexivity.
Qed.

(** C9: [generateUniquePath] always terminates: within
    [max 1 attempts] tests of the loop condition (1000 with the default) it
    returns a path that does not exist or raises the "cannot generate"
    error, and more fuel never changes the outcome. *)
Theorem generateUniquePath_terminates (exists_ : string -> bool) (path : string) (attempts : Z) :
  exists r,
    (forall fuel, (Z.to_nat (Z.max 1 attempts) <= fuel)%nat ->
       Cmds.generateUniquePath fuel exists_ path attempts = Some r) /\
    match r with
    | Cmds.Unique p => exists_ p = false
    | Cmds.CannotGenerate _ => True
    end.
Proof.
  unfold Cmds.generateUniquePath.
  destruct (Cmds.splitPath path) as [[dirname name] extension].
  destruct (UniqueFacts.unique_loop_finishes exists_ dirname name extension attempts
              (Z.to_nat (Z.max 1 attempts)) 1 path) as [r [Hr Hg]]; [lia|lia|].
  exists r. split; [|exact Hg].
  intros fuel Hfuel. eapply UniqueFacts.unique_loop_mono; eauto.
Qed.

(** With the default [attempts=1000]: at most 1000 tests of the loop. *)
Example generateUniquePath_default_bound : Z.to_nat (Z.max 1 1000) = 1000%nat.
Proof. reflexivity. Qed.

(** C2 (code bug, evaluated): moving [[w3; w4]] before [w1] in
    [w1..w4] puts them back in reverse order, [w4] then [w3]; moving [[w1]]
    before [w3] puts it after [w3], because the target index is taken before
    the moved rows are removed. *)
Lemma moveItems_failing_input :
  option_map (map (fun d => (drow_id d, drow_order d)))
    (Tree.moveItems view0 Tree.ColNone [w3; w4] (Some w1) [w1; w2; w3; w4])
  = Some [(4, "00001"); (3, "00002"); (1, "00003"); (2, "00004")]%nat /\
  option_map (map drow_id)
    (Tree.moveItems view0 Tree.ColNone [w1] (Some w3) [w1; w2; w3; w4])
  = Some [2; 3; 1; 4]%nat.
Proof. split; reflexivity. Qed.

(** The header count of [groupByColumn]'s loop: one header per maximal run
    of equal display texts, except that a first run with display text [""]
    gets none (the loop starts from [currentGroupText = ""]). *)
Lemma group_loop_headers (c : Z) (cur : string) (items : list Tree.witem) :
  length (List.filter is_header (Tree.group_loop c cur items))
  = runs_after cur (map (fun r => Tree.r_display r c) items).
Proof.
  revert cur. induction items as [|it items IH]; intros cur; simpl; [done|].
  destruct (String.eqb (Tree.r_display it c) cur); simpl; rewrite IH; reflexivity.
Qed.

Lemma group_headers_count (c : Z) (items : list Tree.witem) :
  length (List.filter is_header (Tree.group_loop c "" items))
  = count_runs (map (fun r => Tree.r_display r c) items)
    - (match items with it :: _ => if String.eqb (Tree.r_display it c) "" then 1 else 0
                        | [] => 0 end).
Proof.
  rewrite group_loop_headers. destruct items as [|it items]; simpl; [done|].
  destruct (String.eqb (Tree.r_display it c) ""); simpl; lia.
Qed.

(** C4 (code bug, evaluated): grouping [g1] (category [""]) and [g2]
    (category ["a"]) by "Category" gives two maximal runs but one header:
    the leading run of empty display text gets no header. *)
Lemma groupByColumn_failing_input :
  map (fun d => (is_header d, drow_id d))
      (Tree.groupByColumn view0 (Tree.ColLabel "Category") (Some Tree.Ascending) [g1; g2]).1.1
  = [(false, 1); (true, 0); (false, 2)]%nat /\
  count_runs (map (fun r => Tree.r_display r 1)
                 (Tree.py_sorted (fun it => Str.lower (Tree.r_text it "Category")) false [g1; g2]))
  = 2%nat.
Proof. split; reflexivity. Qed.

(** C7 (code bug, evaluated): [renamePath("/lib/a.anim", "/new/b.anim",
    force=True)] where only [/lib] exists creates [/new] and only then
    raises the missing-source error. *)
Lemma renamePath_failing_input :
  Cmds.renamePath (fun p => String.eqb p "/lib") "/lib/a.anim" "/new/b.anim" None true
  = ([MkDir "/new"], inl (Cmds.MissingSrc "/lib/a.anim")).
Proof. reflexivity. Qed.

(** Without [force], every [PathRenameError] of [renamePath] is raised
    before any filesystem mutation. *)
Lemma renamePath_no_force_errors_first (exists_ : string -> bool) (src dst : string)
    (extension : option string) (e : Cmds.rename_error) :
  (Cmds.renamePath exists_ src dst extension false).2 = inl e ->
  (Cmds.renamePath exists_ src dst extension false).1 = [].
Proof.
  unfold Cmds.renamePath. cbn zeta.
  change (negb false) with true. rewrite ?andb_false_r, ?andb_true_r.
  repeat match goal with
         | |- context [if ?b then _ else _] => destruct b
         end; simpl; congruence.
Qed.

(** Witness for C9 at the default budget. *)
Lemma generateUniquePath_terminates_witness :
  exists r,
    (forall fuel, (Z.to_nat (Z.max 1 1000) <= fuel)%nat ->
       Cmds.generateUniquePath fuel (fun _ => true) "/lib/a.anim" 1000 = Some r) /\
    match r with
    | Cmds.Unique p => (fun _ => true) p = false
    | Cmds.CannotGenerate _ => True
    end.
Proof. exact (generateUniquePath_terminates (fun _ => true) "/lib/a.anim" 1000). Defined.

End Claims.

(* ================================================================== *)
(** * Further properties of the code *)
(* ================================================================== *)

Module Extras.
Import Store.

(** ** Helper lemmas *)

Lemma remove_fold_lookup (l : list string) (d : db) (k : string) :
  foldl Store2.remove_one d l !! k = if decide (k ∈ l) then None else d !! k.
Proof.
  revert d. induction l as [|p l IH]; intros d; simpl.
  - destruct (decide (k ∈ [])) as [Hn|]; [by apply not_elem_of_nil in Hn|done].
  - rewrite IH. destruct (decide (k ∈ l)) as [Hk|Hk].
    + rewrite decide_True; [done|]. rewrite elem_of_cons. by right.
    + unfold Store2.remove_one. destruct (decide (k = p)) as [->|Hne].
      * rewrite decide_True by (rewrite elem_of_cons; by left).
        destruct (d !! p) eqn:E; [by rewrite lookup_delete_eq|done].
      * rewrite decide_False by (rewrite elem_of_cons; tauto).
        destruct (d !! p); [by rewrite lookup_delete_ne|done].
Qed.

Lemma update_fold_lookup (data : record) (l : list string) (d : db) (k : string) :
  foldl (update_one data) d l !! k =
  if decide (k ∈ l) then Some (data ∪ default ∅ (d !! k)) else d !! k.
Proof.
  revert d. induction l as [|p l IH]; intros d; simpl.
  - destruct (decide (k ∈ [])) as [Hn|]; [by apply not_elem_of_nil in Hn|done].
  - rewrite IH. unfold update_one.
    destruct (decide (k = p)) as [->|Hne].
    + rewrite (decide_True (P := p ∈ p :: l)) by (rewrite elem_of_cons; by left).
      destruct (d !! p) as [r|] eqn:E; rewrite lookup_insert_eq;
        destruct (decide (p ∈ l)); simpl; f_equal.
      * by rewrite (map_union_assoc data data r), (map_union_idemp data).
      * by rewrite (map_union_idemp data), (map_union_empty data).
      * by rewrite (map_union_empty data).
    + assert (Hl : (k ∈ p :: l) <-> k ∈ l) by (rewrite elem_of_cons; tauto).
      destruct (d !! p); rewrite lookup_insert_ne by congruence;
        destruct (decide (k ∈ l)), (decide (k ∈ p :: l)); tauto.
Qed.

Lemma updatePaths_lookup_gen (stamp : nat -> Z) (paths : list string) (data : record)
    (st : state) (k : string) :
  readJson (updatePaths stamp paths data st) !! k =
  if decide (k ∈ normPaths paths) then Some (data ∪ default ∅ ((read st).2 !! k))
  else (read st).2 !! k.
Proof.
  unfold updatePaths. destruct (read st) as [st1 d]. simpl.
  apply update_fold_lookup.
Qed.

Lemma sync_delete_lookup (exists_ : string -> bool) (d : db) (k : string) :
  (sync_delete exists_ d).1 !! k = if exists_ k then d !! k else None.
Proof.
  unfold sync_delete. simpl. destruct (d !! k) as [r|] eqn:E.
  - destruct (exists_ k) eqn:Ex.
    + apply map_lookup_filter_Some. simpl. auto.
    + apply map_lookup_filter_None. right. intros x Hx. simpl. congruence.
  - destruct (exists_ k); apply map_lookup_filter_None; by left.
Qed.

Lemma sync_insert_lookup (found : list string) (d : db) (b : bool) (k : string) :
  (sync_insert found d b).1 !! k =
  match d !! k with
  | Some r => Some r
  | None => if decide (k ∈ found) then Some ∅ else None
  end.
Proof.
  revert d b. induction found as [|q found IH]; intros d b; simpl.
  - destruct (d !! k); [done|].
    destruct (decide (k ∈ [])) as [Hn|]; [by apply not_elem_of_nil in Hn|done].
  - destruct (d !! q) as [r|] eqn:Hq; rewrite IH.
    + destruct (d !! k) eqn:Hk; [done|].
      assert (k <> q) by congruence.
      destruct (decide (k ∈ found)), (decide (k ∈ q :: found));
        rewrite ?elem_of_cons in *; tauto.
    + destruct (decide (k = q)) as [->|Hne].
      * rewrite lookup_insert_eq, Hq, decide_True; [done|]. rewrite elem_of_cons. by left.
      * rewrite lookup_insert_ne by congruence.
        destruct (d !! k); [done|].
        destruct (decide (k ∈ found)), (decide (k ∈ q :: found));
          rewrite ?elem_of_cons in *; tauto.
Qed.

Lemma removePaths_file (stamp : nat -> Z) (paths : list string) (st : state) (k : string) :
  readJson (Store2.removePaths stamp paths st) !! k =
  if decide (k ∈ normPaths paths) then None else (read st).2 !! k.
Proof.
  unfold Store2.removePaths. destruct (read st) as [st1 d]. simpl.
  apply remove_fold_lookup.
Qed.

(** ** [LibraryModel] *)

(** X1: [_fileChanged] emits [fileChanged] exactly when the model is dirty,
    and a second call with no change to the file in between emits nothing
    and leaves the model as it is. *)
Theorem fileChanged_emits_once (st : state) :
  let '(st1, emitted) := Store2.fileChanged st in
  emitted = isDirty st /\ Store2.fileChanged st1 = (st1, false).
Proof.
  unfold Store2.fileChanged. destruct (isDirty st) eqn:Hd.
  - split; [done|]. unfold isDirty, setDirty, mtime. simpl.
    rewrite bool_decide_eq_false_2; [done|]. tauto.
  - split; [done|]. by rewrite Hd.
Qed.

(** X2: [save(d)] does not refresh the cached snapshot, so a [read()]
    right after it returns [d] only when the write changed the file's
    modification time away from the recorded one; when the new mtime equals
    the recorded [_mtime], [read()] returns the stale cache. *)
Theorem read_after_save (stamp : nat -> Z) (d : db) (st : state) :
  (read (save stamp d st)).2 =
  if bool_decide (m_rec st = Some (stamp (m_writes st))) then m_data st else d.
Proof.
  unfold read, isDirty, save, saveJson, mtime. simpl.
  case_bool_decide as H1; case_bool_decide as H2; simpl; tauto.
Qed.

(** X3: after [removePaths(paths)], the database file and the cache hold
    the same dict, in which every normalized path of [paths] has no record
    and every other key keeps the record [read()] returned; paths without a
    record are skipped without error. *)
Theorem removePaths_lookup (stamp : nat -> Z) (paths : list string) (st : state) (k : string) :
  let st' := Store2.removePaths stamp paths st in
  readJson st' = m_data st' /\
  readJson st' !! k = if decide (k ∈ normPaths paths) then None else (read st).2 !! k.
Proof.
  unfold Store2.removePaths. destruct (read st) as [st1 d]. simpl.
  split; [done|]. apply remove_fold_lookup.
Qed.

(** X4: [LibraryModel.removePath(path)] always drops the record of the
    normalized path from the database, even when nothing exists at [path] on
    disk, in which case it deletes nothing on disk. *)
Theorem model_removePath_drops_record (stamp : nat -> Z) (isfile isdir : string -> bool)
    (path : string) (st : state) :
  let '(acts, st') := Store2.model_removePath stamp isfile isdir path st in
  readJson st' !! normPath path = None /\
  (isfile path = false -> isdir path = false -> acts = []).
Proof.
  unfold Store2.model_removePath. split.
  - rewrite removePaths_file. rewrite decide_True; [done|].
    apply list_elem_of_singleton. reflexivity.
  - unfold Store2.removePath. intros -> ->. done.
Qed.


(** X6: [addPaths(paths)] with no data never changes an existing record:
    a listed path that already has a record keeps it, a listed path without
    one gets [{}], and every other key is unchanged. *)
Theorem addPaths_keeps_records (stamp : nat -> Z) (paths : list string) (st : state) (k : string) :
  readJson (addPaths stamp paths None st) !! k =
  if decide (k ∈ normPaths paths) then Some (default ∅ ((read st).2 !! k))
  else (read st).2 !! k.
Proof.
  unfold addPaths. simpl. rewrite updatePaths_lookup_gen.
  destruct (decide _); [|done]. by rewrite (map_empty_union (default ∅ _)).
Qed.

(** X7: after [sync()], a path keeps its record if it still exists on disk;
    otherwise, or when it had none, it gets [{}] if item discovery found
    it, and has no record at all if not. *)
Theorem sync_lookup (stamp : nat -> Z) (exists_ : string -> bool) (found : list string)
    (st : state) (k : string) :
  m_data (sync stamp exists_ found st).1 !! k =
  match (if exists_ k then (read st).2 !! k else None) with
  | Some r => Some r
  | None => if decide (k ∈ found) then Some ∅ else None
  end.
Proof.
  unfold sync. destruct (read st) as [st1 d].
  destruct (sync_delete exists_ d) as [d1 b1] eqn:Hdel.
  destruct (sync_insert found d1 b1) as [d2 b2] eqn:Hins. simpl.
  assert (Hd2 : d2 !! k = (sync_insert found d1 b1).1 !! k) by (by rewrite Hins).
  assert (Hd1 : d1 !! k = (sync_delete exists_ d).1 !! k) by (by rewrite Hdel).
  rewrite sync_insert_lookup, Hd1, sync_delete_lookup in Hd2.
  destruct b2; simpl; exact Hd2.
Qed.

(** X8: [sync()] writes the database file only when it emits
    [dataChanged], and then writes exactly its new cached snapshot; when it
    emits nothing the file is left untouched. *)
Theorem sync_writes_iff_emitted (stamp : nat -> Z) (exists_ : string -> bool)
    (found : list string) (st : state) :
  let '(st', emitted) := sync stamp exists_ found st in
  if emitted then readJson st' = m_data st' /\ m_writes st' = S (m_writes st)
  else m_file st' = m_file st /\ m_writes st' = m_writes st.
Proof.
  pose proof (StoreFacts.read_clean st) as (_ & _ & Hf & Hw).
  unfold sync. destruct (read st) as [st1 d]. simpl in Hf, Hw.
  destruct (sync_delete exists_ d) as [d1 b1].
  destruct (sync_insert found d1 b1) as [d2 b2].
  rewrite <- Hf, <- Hw.
  destruct b2; simpl; auto.
Qed.

(** ** [cmds] *)

Lemma unique_loop_unique (exists_ : string -> bool) (dn nm ext : string) (attempts : Z)
    (fuel attempt : nat) (path p : string) :
  Cmds.unique_loop fuel exists_ dn nm ext attempts attempt path = Some (Cmds.Unique p) ->
  exists_ p = false /\
  (p = path \/ exists m, (attempt < m)%nat /\ (Z.of_nat m < attempts)%Z /\
                          p = Cmds.candidate dn nm ext m).
Proof.
  revert attempt path. induction fuel as [|fuel IH]; intros attempt path H; simpl in H;
    [discriminate|].
  destruct (exists_ path) eqn:Ex.
  - destruct (attempts <=? Z.of_nat (S attempt))%Z eqn:Ha; [discriminate|].
    apply Z.leb_gt in Ha.
    destruct (IH _ _ H) as [Hp [->|[m (Hm1 & Hm2 & ->)]]]; split; auto; right.
    + exists (S attempt). split; [lia|]. split; [lia|]. reflexivity.
    + exists m. split; [lia|]. auto.
  - injection H as <-. auto.
Qed.

(** X9: when [generateUniquePath(path, attempts)] returns a path, nothing
    exists at that path, and it is either [path] itself or the candidate
    [u'{dirname}/{name} ({n}){extension}'] for some [2 <= n < attempts]. *)
Theorem generateUniquePath_fresh (fuel : nat) (exists_ : string -> bool) (path : string)
    (attempts : Z) (p : string) :
  Cmds.generateUniquePath fuel exists_ path attempts = Some (Cmds.Unique p) ->
  let '(dn, nm, ext) := Cmds.splitPath path in
  exists_ p = false /\
  (p = path \/ exists n, (2 <= n)%nat /\ (Z.of_nat n < attempts)%Z /\
                          p = Cmds.candidate dn nm ext n).
Proof.
  unfold Cmds.generateUniquePath. destruct (Cmds.splitPath path) as [[dn nm] ext].
  intros H. destruct (unique_loop_unique _ _ _ _ _ _ _ _ _ H) as [Hp [Heq|[m (Hm & Ha & ->)]]].
  - auto.
  - split; [done|]. right. exists m. split; [lia|auto].
Qed.

Lemma generateUniquePath_fresh_witness :
  let ex := fun q => String.eqb q "/lib/a.anim" in
  Cmds.generateUniquePath 5 ex "/lib/a.anim" 1000 = Some (Cmds.Unique "/lib/a (2).anim") /\
  (let '(dn, nm, ext) := Cmds.splitPath "/lib/a.anim" in
   ex "/lib/a (2).anim" = false /\
   ("/lib/a (2).anim" = "/lib/a.anim" \/
    exists n, (2 <= n)%nat /\ (Z.of_nat n < 1000)%Z /\ "/lib/a (2).anim" = Cmds.candidate dn nm ext n)).
Proof.
  intros ex. split; [reflexivity|].
  apply (generateUniquePath_fresh 5 ex "/lib/a.anim" 1000). reflexivity.
Defined.

(** X10: without [force], a [renamePath] that succeeds performs exactly one
    filesystem mutation, [os.rename(src, dst)] from the normalized source
    to the returned destination, and that destination did not exist and
    differs from the source: it never overwrites. *)
Theorem renamePath_no_force_success (exists_ : string -> bool) (src dst : string)
    (extension : option string) (acts : list fs_action) (d : string) :
  Cmds.renamePath exists_ src dst extension false = (acts, inr d) ->
  acts = [RenameTo (normPath src) d] /\ exists_ d = false /\ d <> normPath src.
Proof.
  unfold Cmds.renamePath. cbn zeta.
  change (negb false) with true. rewrite ?andb_false_r, ?andb_true_r.
  match goal with |- context [String.eqb (normPath src) ?X] => remember X as dd eqn:Hdd end.
  destruct (String.eqb (normPath src) dd) eqn:E1; [discriminate|].
  destruct (exists_ dd) eqn:E2; [discriminate|].
  destruct (negb (exists_ (Str.dirname (normPath src)))); [discriminate|].
  simpl. destruct (negb (exists_ (normPath src))); [discriminate|].
  intros H. injection H as <- <-. split; [reflexivity|]. split; [done|].
  intros Heq. rewrite Heq, String.eqb_refl in E1. discriminate.
Qed.

Lemma renamePath_no_force_success_witness :
  let ex := fun p => String.eqb p "/lib" || String.eqb p "/lib/a.anim" in
  Cmds.renamePath ex "/lib/a.anim" "b.anim" None false
    = ([RenameTo "/lib/a.anim" "/lib/b.anim"], inr "/lib/b.anim") /\
  [RenameTo "/lib/a.anim" "/lib/b.anim"] = [RenameTo (normPath "/lib/a.anim") "/lib/b.anim"] /\
  ex "/lib/b.anim" = false /\ "/lib/b.anim" <> normPath "/lib/a.anim".
Proof.
  intros ex. split; [reflexivity|].
  apply (renamePath_no_force_success ex "/lib/a.anim" "b.anim" None). reflexivity.
Defined.

(** X11: [movePath] moves only an existing source; when the source is a
    directory it is moved to a destination where nothing exists yet. *)
Theorem movePath_moves_to_fresh (fuel : nat) (exists_ isdir : string -> bool)
    (src dst s d : string) :
  Cmds2.movePath fuel exists_ isdir src dst = Some (Cmds2.Moved s d) ->
  s = src /\ exists_ src = true /\ (isdir src = true -> exists_ d = false).
Proof.
  unfold Cmds2.movePath. destruct (Cmds.splitPath src) as [[dn nm] ext].
  destruct (exists_ src) eqn:Ex; simpl; [|discriminate].
  destruct (isdir src) eqn:Hd.
  - destruct (Cmds.generateUniquePath _ _ _ _) as [[p|p]|] eqn:G; intros H;
      inversion H; subst.
    split; [done|]. split; [done|]. intros _.
    unfold Cmds.generateUniquePath in G. destruct (Cmds.splitPath _) as [[a b] c].
    by destruct (unique_loop_unique _ _ _ _ _ _ _ _ _ G).
  - intros H. inversion H; subst. split; [done|]. split; [done|]. discriminate.
Qed.

Lemma movePath_moves_to_fresh_witness :
  let ex := fun q => String.eqb q "/lib/a" || String.eqb q "/dst" in
  let isdir := fun q => String.eqb q "/lib/a" || String.eqb q "/dst" in
  Cmds2.movePath 3 ex isdir "/lib/a" "/dst" = Some (Cmds2.Moved "/lib/a" "/dst/a") /\
  ("/lib/a" = "/lib/a" /\ ex "/lib/a" = true /\ (isdir "/lib/a" = true -> ex "/dst/a" = false)).
Proof.
  intros ex isdir. split; [reflexivity|].
  apply (movePath_moves_to_fresh 3 ex isdir "/lib/a" "/dst"). reflexivity.
Defined.

(** X12: [registerItem] keeps the registration order of [_itemClasses]:
    re-registering an extension leaves it at its old position, a new
    extension goes last, and the extension then maps to the given class and
    options. *)
Theorem registerItem_keeps_order (c e : string) (dir file : bool) (ig : option string)
    (r : Cmds2.registry) :
  map fst (Cmds2.registerItem c e dir file ig r) =
    (if decide (e ∈ map fst r) then map fst r else map fst r ++ [e])%list /\
  In (e, Cmds2.mkReg c dir file ig) (Cmds2.registerItem c e dir file ig r).
Proof.
  unfold Cmds2.registerItem. generalize (Cmds2.mkReg c dir file ig) as v. intros v.
  induction r as [|[k w] r IH]; simpl.
  - split; [|by left].
    destruct (decide (e ∈ [])) as [Hn|]; [by apply not_elem_of_nil in Hn|done].
  - destruct (String.eqb_spec k e) as [->|Hne]; simpl.
    + split; [|by left]. rewrite decide_True; [done|]. rewrite elem_of_cons. by left.
    + destruct IH as [IH1 IH2]. split; [|by right].
      rewrite IH1.
      destruct (decide (e ∈ map fst r)) as [H1|H1], (decide (e ∈ k :: map fst r)) as [H2|H2];
        rewrite ?elem_of_cons in H2; first [reflexivity | exfalso; intuition congruence].
Qed.

(** X13: registering an extension a second time replaces the first
    registration entirely: the registry is the same as if only the second
    call had been made. *)
Theorem registerItem_twice (c e : string) (dir file : bool) (ig : option string)
    (c' : string) (dir' file' : bool) (ig' : option string) (r : Cmds2.registry) :
  Cmds2.registerItem c e dir file ig (Cmds2.registerItem c' e dir' file' ig' r)
  = Cmds2.registerItem c e dir file ig r.
Proof.
  unfold Cmds2.registerItem. induction r as [|[k w] r IH]; simpl.
  - by rewrite String.eqb_refl.
  - destruct (String.eqb k e) eqn:E; simpl; rewrite E; [done|]. by rewrite IH.
Qed.

(** X14: [itemFromPath(path)] returns the class of the first registered
    extension, in registration order, such that [path] ends with it, [path]
    does not contain its [ignore] string, and its [isDir]/[isFile] flag
    matches what [path] is on disk; it returns [None] exactly when no
    registered extension passes these tests. *)
Theorem itemFromPath_first_match (isdir isfile : string -> bool) (path : string)
    (r : Cmds2.registry) :
  match Cmds2.itemFromPath isdir isfile path r with
  | Some c =>
      exists pre ext val post,
        r = (pre ++ (ext, val) :: post)%list /\ Cmds2.cls val = c /\
        Cmds2.endswith ext path = true /\ Cmds2.ignored val path = false /\
        (Cmds2.isDir val && isdir path || Cmds2.isFile val && isfile path) = true /\
        (forall e w, In (e, w) pre -> Cmds2.endswith e path = true ->
           Cmds2.ignored w path = false ->
           (Cmds2.isDir w && isdir path || Cmds2.isFile w && isfile path) = false)
  | None =>
      forall e w, In (e, w) r -> Cmds2.endswith e path = true ->
        Cmds2.ignored w path = false ->
        (Cmds2.isDir w && isdir path || Cmds2.isFile w && isfile path) = false
  end.
Proof.
  induction r as [|[ext val] r IH]; cbn [Cmds2.itemFromPath].
  - intros e w [].
  - assert (Hrec : (Cmds2.endswith ext path = true -> Cmds2.ignored val path = false ->
                    (Cmds2.isDir val && isdir path || Cmds2.isFile val && isfile path) = false) ->
                   match Cmds2.itemFromPath isdir isfile path r with
                   | Some c =>
                       exists pre ext' val' post,
                         (ext, val) :: r = (pre ++ (ext', val') :: post)%list /\
                         Cmds2.cls val' = c /\
                         Cmds2.endswith ext' path = true /\ Cmds2.ignored val' path = false /\
                         (Cmds2.isDir val' && isdir path || Cmds2.isFile val' && isfile path)
                           = true /\
                         (forall e w, In (e, w) pre -> Cmds2.endswith e path = true ->
                            Cmds2.ignored w path = false ->
                            (Cmds2.isDir w && isdir path || Cmds2.isFile w && isfile path)
                              = false)
                   | None =>
                       forall e w, In (e, w) ((ext, val) :: r) ->
                         Cmds2.endswith e path = true -> Cmds2.ignored w path = false ->
                         (Cmds2.isDir w && isdir path || Cmds2.isFile w && isfile path) = false
                   end).
    { intros Hhd. destruct (Cmds2.itemFromPath isdir isfile path r) as [c|].
      - destruct IH as (pre & e0 & v0 & post & -> & H1 & H2 & H3 & H4 & H5).
        exists ((ext, val) :: pre), e0, v0, post. do 5 (split; [done|]).
        intros e w [Heq|Hin]; [injection Heq as <- <-; exact Hhd|exact (H5 e w Hin)].
      - intros e w [Heq|Hin]; [injection Heq as <- <-; exact Hhd|exact (IH e w Hin)]. }
    destruct (Cmds2.endswith ext path) eqn:E1.
    + destruct (Cmds2.ignored val path) eqn:E2.
      * exact (Hrec ltac:(congruence)).
      * destruct (Cmds2.isDir val && isdir path || Cmds2.isFile val && isfile path) eqn:E3.
        -- exists [], ext, val, r. do 5 (split; [done|]). intros e w [].
        -- exact (Hrec ltac:(congruence)).
    + exact (Hrec ltac:(congruence)).
Qed.




(** ** [CombinedTreeWidget] *)

Lemma shown_map_DItem (l : list Tree.witem) : Tree2.shown_items (map Tree.DItem l) = l.
Proof. induction l as [|r l IH]; simpl; [done|]. by rewrite IH. Qed.

Lemma shown_group_loop (c : Z) (cur : string) (l : list Tree.witem) :
  Tree2.shown_items (Tree.group_loop c cur l) = l.
Proof.
  revert cur. induction l as [|r l IH]; intros cur; simpl; [done|].
  destruct (String.eqb _ _); simpl; by rewrite IH.
Qed.

Lemma groupByColumn_shown (v : Tree.view) (gc : Tree.colref) (go : option Tree.order)
    (items : list Tree.witem) :
  Permutation (Tree2.shown_items (Tree.groupByColumn v gc go items).1.1) items.
Proof.
  unfold Tree.groupByColumn. cbn zeta.
  destruct (Tree.resolve v gc) as [|c|l]; simpl; try (rewrite shown_map_DItem; done).
  case_bool_decide; simpl; [by rewrite shown_map_DItem|].
  rewrite shown_group_loop. symmetry. apply SortFacts.py_sorted_perm.
Qed.

Lemma map_DItem_no_header (l : list Tree.witem) (i : nat) (t : string) :
  map Tree.DItem l !! i <> Some (Tree.DHeader t).
Proof. revert i. induction l as [|r l IH]; intros [|i]; simpl; try discriminate; auto. Qed.

Lemma group_loop_header (c : Z) (cur : string) (l : list Tree.witem) (i : nat) (t : string) :
  Tree.group_loop c cur l !! i = Some (Tree.DHeader t) ->
  exists it, Tree.group_loop c cur l !! S i = Some (Tree.DItem it) /\ Tree.r_display it c = t.
Proof.
  revert cur i. induction l as [|it l IH]; intros cur i H; simpl in *; [discriminate|].
  destruct (String.eqb (Tree.r_display it c) cur).
  - destruct i as [|i]; simpl in H; [discriminate|]. simpl. exact (IH _ _ H).
  - destruct i as [|[|i]]; simpl in H.
    + injection H as <-. exists it. simpl. auto.
    + discriminate.
    + simpl. exact (IH _ _ H).
Qed.

Lemma refresh_ids (u l : list Tree.witem) : map Tree.r_id (Tree.refresh u l) = map Tree.r_id l.
Proof.
  induction l as [|r l IH]; simpl; [done|]. rewrite IH. f_equal.
  destruct (List.find _ u) as [r'|] eqn:F; simpl; [|done].
  apply List.find_some in F as [_ F]. by apply Nat.eqb_eq in F.
Qed.

Lemma sortByColumn_shown (v : Tree.view) (sc : Tree.colref) (so : Tree.order)
    (gc : Tree.colref) (go : option Tree.order) (l : list Tree.witem) :
  Permutation (Tree2.shown_items (Tree.sortByColumn v sc so gc go l)) l.
Proof.
  unfold Tree.sortByColumn.
  pose proof (groupByColumn_shown v gc go (Tree.sortStep v sc so l)) as H.
  destruct (Tree.groupByColumn _ _ _ _) as [[rows c] o]. simpl in H.
  rewrite H. unfold Tree.sortStep. symmetry. apply SortFacts.py_sorted_perm.
Qed.

Lemma setText_same (label value : string) (r : Tree.witem) :
  Tree.r_text (Tree.setText label value r) label = value.
Proof. unfold Tree.setText. simpl. by rewrite String.eqb_refl. Qed.

Lemma str_app_cons (x : ascii) (a b : string) : (String x a ++ b) = String x (a ++ b).
Proof. reflexivity. Qed.

Lemma str_app_empty (b : string) : ("" ++ b) = b.
Proof. reflexivity. Qed.

Lemma str_app_assoc (a b c : string) : ((a ++ b) ++ c) = (a ++ (b ++ c)).
Proof. induction a as [|x a IH]; rewrite ?str_app_cons, ?str_app_empty; congruence. Qed.

Lemma str_app_nil (a : string) : (a ++ "") = a.
Proof. induction a as [|x a IH]; rewrite ?str_app_cons, ?str_app_empty; congruence. Qed.

Lemma str_length_app (a b : string) :
  String.length (a ++ b) = (String.length a + String.length b)%nat.
Proof. induction a as [|x a IH]; rewrite ?str_app_cons, ?str_app_empty; simpl; congruence. Qed.

Lemma digits_length (k n : nat) : String.length (Digits.digits k n) = k.
Proof.
  revert n. induction k as [|k IH]; intros n; [done|].
  cbn [Digits.digits]. rewrite str_length_app, IH. simpl. lia.
Qed.

Lemma dec_go_S (f n : nat) (acc : string) :
  Str.dec_go (S f) n acc =
  (let acc' := String (ascii_of_nat (48 + n mod 10)) acc in
   if (n <? 10)%nat then acc' else Str.dec_go f (n / 10) acc').
Proof. reflexivity. Qed.

Lemma dec_go_digits (fuel n : nat) (acc : string) :
  (n < fuel)%nat ->
  exists L, Str.dec_go fuel n acc = (Digits.digits (S L) n ++ acc) /\
            (n < 10 ^ S L)%nat /\ (L = 0 \/ 10 ^ L <= n)%nat.
Proof.
  revert n acc. induction fuel as [|fuel IH]; intros n acc Hn; [lia|].
  rewrite dec_go_S. cbn zeta. destruct (n <? 10)%nat eqn:E.
  - apply Nat.ltb_lt in E. exists 0%nat. split; [reflexivity|].
    split; [change (10 ^ 1)%nat with 10%nat; lia|by left].
  - apply Nat.ltb_ge in E.
    destruct (IH (n / 10)%nat (String (ascii_of_nat (48 + n mod 10)) acc)) as [L (Heq & Hlt & HL)].
    { assert (n / 10 < n)%nat by (apply Nat.div_lt; lia). lia. }
    exists (S L). rewrite Heq. split.
    + change (Digits.digits (S (S L)) n)
        with (Digits.digits (S L) (n / 10) ++ String (ascii_of_nat (48 + n mod 10)) "").
      rewrite str_app_assoc. reflexivity.
    + pose proof (Nat.div_mod_eq n 10). pose proof (Nat.mod_upper_bound n 10 ltac:(lia)).
      split.
      * change (10 ^ S (S L))%nat with (10 * 10 ^ S L)%nat. nia.
      * right. destruct HL as [->|HL]; [change (10 ^ 1)%nat with 10%nat; lia|].
        change (10 ^ S L)%nat with (10 * 10 ^ L)%nat. nia.
Qed.

Lemma zeros_snoc (j : nat) : (Digits.zeros j ++ "0") = ("0" ++ Digits.zeros j).
Proof.
  induction j as [|j IH]; [reflexivity|].
  change (Digits.zeros (S j)) with (String "0" (Digits.zeros j)).
  rewrite str_app_cons, IH. reflexivity.
Qed.

Lemma digits_zero (k : nat) : Digits.digits k 0 = Digits.zeros k.
Proof.
  induction k as [|k IH]; [reflexivity|].
  change (Digits.digits (S k) 0) with (Digits.digits k 0 ++ "0").
  rewrite IH, zeros_snoc. reflexivity.
Qed.

Lemma digits_pad (L k n : nat) :
  (n < 10 ^ L)%nat -> (L <= k)%nat ->
  Digits.digits k n = (Digits.zeros (k - L) ++ Digits.digits L n).
Proof.
  revert L n. induction k as [|k IH]; intros L n Hn HL.
  - assert (L = 0%nat) as -> by lia. reflexivity.
  - destruct L as [|L].
    + change (10 ^ 0)%nat with 1%nat in Hn. assert (n = 0%nat) as -> by lia.
      rewrite Nat.sub_0_r, digits_zero. change (Digits.digits 0 0) with "".
      by rewrite str_app_nil.
    + change (Digits.digits (S k) n)
        with (Digits.digits k (n / 10) ++ String (ascii_of_nat (48 + n mod 10)) "").
      change (Digits.digits (S L) n)
        with (Digits.digits L (n / 10) ++ String (ascii_of_nat (48 + n mod 10)) "").
      change (10 ^ S L)%nat with (10 * 10 ^ L)%nat in Hn.
      rewrite (IH L (n / 10)%nat); [|apply Nat.Div0.div_lt_upper_bound; lia|lia].
      replace (S k - S L)%nat with (k - L)%nat by lia. apply str_app_assoc.
Qed.

Lemma str_compare_app (a b c d : string) :
  String.length a = String.length b ->
  String.compare (a ++ c) (b ++ d) =
  match String.compare a b with Eq => String.compare c d | r => r end.
Proof.
  revert b. induction a as [|x a IH]; intros [|y b] H; simpl in H; try discriminate; [done|].
  rewrite !str_app_cons. simpl.
  destruct (Ascii.compare x y); [apply IH; congruence|done|done].
Qed.

Lemma digit_compare (x y : nat) :
  (x < 10)%nat -> (y < 10)%nat ->
  Ascii.compare (ascii_of_nat (48 + x)) (ascii_of_nat (48 + y)) = Nat.compare x y.
Proof.
  intros Hx Hy.
  do 10 (destruct x as [|x]; [do 10 (destruct y as [|y]; [reflexivity|]); lia|]). lia.
Qed.

Lemma digits_compare (k a b : nat) :
  (a < 10 ^ k)%nat -> (b < 10 ^ k)%nat ->
  String.compare (Digits.digits k a) (Digits.digits k b) = Nat.compare a b.
Proof.
  revert a b. induction k as [|k IH]; intros a b Ha Hb.
  - change (10 ^ 0)%nat with 1%nat in Ha, Hb.
    assert (a = 0%nat) as -> by lia. assert (b = 0%nat) as -> by lia. reflexivity.
  - change (Digits.digits (S k) a)
      with (Digits.digits k (a / 10) ++ String (ascii_of_nat (48 + a mod 10)) "").
    change (Digits.digits (S k) b)
      with (Digits.digits k (b / 10) ++ String (ascii_of_nat (48 + b mod 10)) "").
    change (10 ^ S k)%nat with (10 * 10 ^ k)%nat in Ha, Hb.
    rewrite str_compare_app by (rewrite !digits_length; reflexivity).
    rewrite IH by (apply Nat.Div0.div_lt_upper_bound; lia).
    pose proof (Nat.div_mod_eq a 10). pose proof (Nat.div_mod_eq b 10).
    pose proof (Nat.mod_upper_bound a 10 ltac:(lia)).
    pose proof (Nat.mod_upper_bound b 10 ltac:(lia)).
    destruct (Nat.compare_spec (a / 10) (b / 10)) as [E|Lt|Gt].
    + cbn [String.compare]. rewrite digit_compare by lia.
      destruct (Nat.compare_spec (a mod 10) (b mod 10)); symmetry;
        [apply Nat.compare_eq_iff|apply Nat.compare_lt_iff|apply Nat.compare_gt_iff]; lia.
    + symmetry. apply Nat.compare_lt_iff. nia.
    + symmetry. apply Nat.compare_gt_iff. nia.
Qed.

Lemma zfill_dec_digits (n : nat) : (n < 10 ^ 5)%nat -> Str.zfill (Str.dec n) 5 = Digits.digits 5 n.
Proof.
  intros Hn. unfold Str.dec.
  destruct (dec_go_digits (S n) n "" (Nat.lt_succ_diag_r n)) as [L (Heq & Hlt & HL)].
  rewrite Heq, str_app_nil. unfold Str.zfill. rewrite digits_length.
  assert (HL5 : (S L <= 5)%nat).
  { destruct HL as [->|HL]; [lia|].
    destruct (Nat.le_gt_cases (S L) 5) as [Hle|Hgt]; [done|].
    assert (10 ^ 5 <= 10 ^ L)%nat by (apply Nat.pow_le_mono_r; lia). lia. }
  rewrite (digits_pad (S L) 5 n Hlt HL5). reflexivity.
Qed.

Lemma zfill_dec_nonempty (n : nat) : Str.zfill (Str.dec n) 5 <> "".
Proof.
  intros H. apply (f_equal String.length) in H. unfold Str.zfill in H.
  rewrite str_length_app in H. unfold Str.dec in H.
  destruct (dec_go_digits (S n) n "" (Nat.lt_succ_diag_r n)) as [L (Heq & _ & _)].
  rewrite Heq, str_app_nil, digits_length in H. simpl in H. lia.
Qed.

Lemma zfill_dec_leb (n : nat) :
  (S n < 10 ^ 5)%nat -> String.leb (Str.zfill (Str.dec n) 5) (Str.zfill (Str.dec (S n)) 5) = true.
Proof.
  intros Hn. rewrite !zfill_dec_digits by lia. unfold String.leb.
  rewrite digits_compare by lia.
  assert (Hc : Nat.compare n (S n) = Lt) by (apply Nat.compare_lt_iff; lia).
  by rewrite Hc.
Qed.

Lemma py_sorted_id {A} (key : A -> string) (rev : bool) (l : list A) :
  Sorted (fun x y => Tree.before key rev x y = true) l -> Tree.py_sorted key rev l = l.
Proof.
  induction 1 as [|x l Hs IH Hhd]; simpl; [done|]. rewrite IH.
  destruct Hhd as [|y l' Hxy]; simpl; [done|]. by rewrite Hxy.
Qed.

Lemma setItemsCustomOrder_sorted (items : list Tree.witem) (n : nat) :
  (n + length items <= 10 ^ 5)%nat ->
  Sorted (fun x y => Tree.before (fun it => Tree.r_text it "Custom Order") false x y = true)
    (Tree.setItemsCustomOrder_from n 5 items).
Proof.
  revert n. induction items as [|it items IH]; intros n Hn; cbn [Tree.setItemsCustomOrder_from];
    [constructor|].
  cbn [length] in Hn. constructor; [apply IH; lia|].
  destruct items as [|it' items']; cbn [Tree.setItemsCustomOrder_from]; constructor.
  unfold Tree.before. cbv beta iota. rewrite !setText_same.
  apply zfill_dec_leb. cbn [length] in Hn. lia.
Qed.

Lemma uco_lookup (n : nat) (l : list Tree.witem) (i : nat) (it : Tree.witem) :
  l !! i = Some it ->
  Tree2.updateCustomOrder_from n 5 l !! i =
  Some (if String.eqb (Tree.r_text it "Custom Order") ""
        then Tree.setText "Custom Order" (Str.zfill (Str.dec (n + i)) 5) it else it).
Proof.
  revert n i. induction l as [|a l IH]; intros n i H; [discriminate|].
  destruct i as [|i].
  - injection H as <-. cbn -[Str.zfill Str.dec Tree.setText]. by rewrite Nat.add_0_r.
  - cbn -[Str.zfill Str.dec Tree.setText] in H |- *. pose proof (IH (S n) i H) as E.
    replace (S n + i)%nat with (n + S i)%nat in E by lia. exact E.
Qed.

Lemma uco_nonempty (n : nat) (l : list Tree.witem) :
  Forall (fun it => Tree.r_text it "Custom Order" <> "") (Tree2.updateCustomOrder_from n 5 l).
Proof.
  revert n. induction l as [|a l IH]; intros n; cbn -[Str.zfill Str.dec Tree.setText];
    constructor; [|apply IH].
  destruct (String.eqb_spec (Tree.r_text a "Custom Order") "") as [E|E].
  - rewrite setText_same. apply zfill_dec_nonempty.
  - exact E.
Qed.

Lemma uco_id (n : nat) (l : list Tree.witem) :
  Forall (fun it => Tree.r_text it "Custom Order" <> "") l ->
  Tree2.updateCustomOrder_from n 5 l = l.
Proof.
  intros H. revert n. induction H as [|a l Ha Hl IH]; intros n; [reflexivity|].
  cbn -[Str.zfill Str.dec Tree.setText].
  destruct (String.eqb_spec (Tree.r_text a "Custom Order") "") as [E|E]; [contradiction|].
  by rewrite IH.
Qed.

Lemma index_of_lookup (l : string) (labels : list string) (i : nat) :
  Tree.index_of l labels = Some i -> labels !! i = Some l.
Proof.
  revert i. induction labels as [|a labels IH]; intros i H; simpl in H; [discriminate|].
  destruct (String.eqb_spec l a) as [->|Hne].
  - injection H as <-. reflexivity.
  - destruct (Tree.index_of l labels) as [j|] eqn:E; simpl in H; [|discriminate].
    injection H as <-. simpl. by apply IH.
Qed.

Lemma index_of_none (l : string) (labels : list string) :
  Tree.index_of l labels = None -> l ∉ labels.
Proof.
  induction labels as [|a labels IH]; intros H; simpl in H.
  - apply not_elem_of_nil.
  - destruct (String.eqb_spec l a) as [->|Hne]; [discriminate|].
    destruct (Tree.index_of l labels) eqn:E; simpl in H; [discriminate|].
    rewrite elem_of_cons. intros [He|Hin]; [done|]. exact (IH eq_refl Hin).
Qed.

Lemma index_of_nodup (l : string) (labels : list string) (i : nat) :
  NoDup labels -> labels !! i = Some l -> Tree.index_of l labels = Some i.
Proof.
  intros Hnd. revert i. induction Hnd as [|a labels Ha Hnd IH]; intros i H; [discriminate|].
  destruct i as [|i]; simpl in H |- *.
  - injection H as ->. by rewrite String.eqb_refl.
  - destruct (String.eqb_spec l a) as [->|Hne].
    + exfalso. apply Ha. by apply list_elem_of_lookup_2 with i.
    + by rewrite (IH i H).
Qed.

(** X17: grouping never drops, duplicates or adds an item: the items among
    the rows [groupByColumn] puts back, group items left out, are a
    permutation of the items it was given. *)
Theorem groupByColumn_keeps_items (v : Tree.view) (gc : Tree.colref) (go : option Tree.order)
    (items : list Tree.witem) :
  Permutation (Tree2.shown_items (Tree.groupByColumn v gc go items).1.1) items.
Proof. apply groupByColumn_shown. Qed.

(** X18: every group item [groupByColumn] inserts is immediately followed
    by an item whose display text in the group column is the group item's
    text; group items therefore never end the list or follow each other. *)
Theorem groupByColumn_header_then_item (v : Tree.view) (gc : Tree.colref)
    (go : option Tree.order) (items : list Tree.witem) :
  let '(rows, col, _) := Tree.groupByColumn v gc go items in
  forall i t, rows !! i = Some (Tree.DHeader t) ->
  exists c it, col = Tree.ColIdx c /\ rows !! S i = Some (Tree.DItem it) /\
               Tree.r_display it c = t.
Proof.
  unfold Tree.groupByColumn. cbn zeta.
  destruct (Tree.resolve v gc) as [|c|l];
    try (intros i t H; exfalso; exact (map_DItem_no_header _ _ _ H)).
  case_bool_decide as Hc0; [intros i t H; exfalso; exact (map_DItem_no_header _ _ _ H)|].
  intros i t H. destruct (group_loop_header _ _ _ _ _ H) as [it [H1 H2]].
  exists c, it. auto.
Qed.

(** X19: when [moveItems] succeeds, the widget shows the same items as
    before (by identity), only reordered: moving never loses or
    duplicates an item. *)
Theorem moveItems_same_items (v : Tree.view) (gc : Tree.colref) (items : list Tree.witem)
    (itemAt : option Tree.witem) (current : list Tree.witem) (rows : list Tree.drow) :
  Tree.moveItems v gc items itemAt current = Some rows ->
  Permutation (map Tree.r_id (Tree2.shown_items rows)) (map Tree.r_id current).
Proof.
  unfold Tree.moveItems. cbn zeta.
  destruct itemAt as [t|]; [destruct (Tree.py_index t _) as [row|]|]; try discriminate;
    destruct (Tree.remove_loop _ _ _) as [[ordered removed]|]; try discriminate;
    intros H; injection H as <-;
    match goal with |- context [Tree.refresh ?u current] =>
      rewrite <- (refresh_ids u current) end;
    apply Permutation_map, sortByColumn_shown.
Qed.

Lemma moveItems_same_items_witness :
  exists rows,
    Tree.moveItems Fixtures.view0 Tree.ColNone [Fixtures.w3; Fixtures.w4] (Some Fixtures.w1)
      [Fixtures.w1; Fixtures.w2; Fixtures.w3; Fixtures.w4] = Some rows /\
    Permutation (map Tree.r_id (Tree2.shown_items rows))
      (map Tree.r_id [Fixtures.w1; Fixtures.w2; Fixtures.w3; Fixtures.w4]).
Proof.
  eexists. split; [reflexivity|].
  apply (moveItems_same_items Fixtures.view0 Tree.ColNone [Fixtures.w3; Fixtures.w4]
           (Some Fixtures.w1)).
  reflexivity.
Defined.

(** X20: for up to 99999 items, numbering them with [setItemsCustomOrder]
    and then sorting them by custom order ([itemsCustomOrder]) gives back
    the same order: the zero-padded numbers sort as the numbers do. *)
Theorem itemsCustomOrder_after_setItemsCustomOrder (items : list Tree.witem) :
  (Z.of_nat (length items) < 100000)%Z ->
  Tree.itemsCustomOrder (Tree.setItemsCustomOrder items) = Tree.setItemsCustomOrder items.
Proof.
  intros H. unfold Tree.itemsCustomOrder, Tree.setItemsCustomOrder.
  apply py_sorted_id, setItemsCustomOrder_sorted.
  apply Nat2Z.inj_le. rewrite Nat2Z.inj_add, Nat2Z.inj_pow.
  change (Z.of_nat 10 ^ Z.of_nat 5)%Z with 100000%Z. lia.
Qed.

Lemma itemsCustomOrder_after_setItemsCustomOrder_witness :
  Tree.itemsCustomOrder (Tree.setItemsCustomOrder [Fixtures.w2; Fixtures.w1])
  = Tree.setItemsCustomOrder [Fixtures.w2; Fixtures.w1].
Proof.
  apply (itemsCustomOrder_after_setItemsCustomOrder [Fixtures.w2; Fixtures.w1]).
  simpl. lia.
Defined.

(** X21: [updateCustomOrder] gives every item a non-empty custom order: the
    item at position [i] (from 0) that had none gets [str(i+1).zfill(5)],
    its position among all items, and an item that had one is left as it
    is; a second call therefore changes nothing. *)
Theorem updateCustomOrder_fills (items : list Tree.witem) :
  let items' := Tree2.updateCustomOrder items in
  Forall (fun it => Tree.r_text it "Custom Order" <> "") items' /\
  (forall i it, items !! i = Some it ->
     items' !! i = Some (if String.eqb (Tree.r_text it "Custom Order") ""
                         then Tree.setText "Custom Order" (Str.zfill (Str.dec (S i)) 5) it
                         else it)) /\
  Tree2.updateCustomOrder items' = items'.
Proof.
  unfold Tree2.updateCustomOrder. split; [apply uco_nonempty|]. split.
  - intros i it H. by rewrite (uco_lookup 1 items i it H).
  - apply uco_id, uco_nonempty.
Qed.

(** X22: looking a label up with [columnFromLabel] and reading the column's
    label back with [labelFromColumn] gives the label itself when it is a
    header label, and [""] (column [-1]) when it is not. *)
Theorem labelFromColumn_columnFromLabel (v : Tree.view) (l : string) :
  Tree.labelFromColumn v (Tree.columnFromLabel v l) =
  if decide (l ∈ Tree.v_labels v) then l else "".
Proof.
  unfold Tree.columnFromLabel. destruct (Tree.index_of l (Tree.v_labels v)) as [i|] eqn:E.
  - apply index_of_lookup in E. unfold Tree.labelFromColumn.
    replace (Z.of_nat i <? 0)%Z with false by (symmetry; apply Z.ltb_ge; lia).
    rewrite Nat2Z.id, E. simpl. rewrite decide_True; [done|].
    by apply list_elem_of_lookup_2 with i.
  - apply index_of_none in E. rewrite decide_False by done. reflexivity.
Qed.

(** X23: when the header labels are distinct, [columnFromLabel] inverts
    [labelFromColumn] on every valid column index. *)
Theorem columnFromLabel_labelFromColumn (v : Tree.view) (c : Z) :
  NoDup (Tree.v_labels v) -> (0 <= c < Z.of_nat (length (Tree.v_labels v)))%Z ->
  Tree.columnFromLabel v (Tree.labelFromColumn v c) = c.
Proof.
  intros Hnd Hc. unfold Tree.labelFromColumn.
  replace (c <? 0)%Z with false by (symmetry; apply Z.ltb_ge; lia).
  destruct (lookup_lt_is_Some_2 (Tree.v_labels v) (Z.to_nat c)) as [l Hl]; [lia|].
  rewrite Hl. simpl. unfold Tree.columnFromLabel.
  rewrite (index_of_nodup l _ (Z.to_nat c) Hnd Hl). lia.
Qed.

Lemma columnFromLabel_labelFromColumn_witness :
  Tree.columnFromLabel Fixtures.view0 (Tree.labelFromColumn Fixtures.view0 2) = 2%Z.
Proof.
  apply (columnFromLabel_labelFromColumn Fixtures.view0 2).
  - apply (bool_decide_unpack _). vm_compute. reflexivity.
  - simpl. lia.
Defined.

End Extras.
